(** * dogwater: merging Waterline configuration across hapi plugins

    A shallow embedding of [lib/index.js].  The plugin keeps one collector
    of adapters, connections, model definitions and defaults on the root
    server, lets every plugin (realm) add to it, remembers which model
    identities each realm added, and starts and stops the ORM with the
    server.

    JavaScript objects used as dictionaries are finite maps from strings;
    objects received as configuration are lists of key/value pairs in the
    order [Object.keys] enumerates them.  Code that throws returns
    [Throw e] together with the state as mutated up to the throw.

    The file has three parts: the embedding of the source, the notions the
    statements are written with, and the proofs. *)

From Stdlib Require Import ZArith Ascii String.
From stdpp Require Import base option list gmap strings fin_maps.

Local Open Scope string_scope.
Local Open Scope list_scope.

(** ** JavaScript values *)

(** Numbers are integers here: no fraction or [NaN] is ever stored by the
    plugin.  [JFun] is a function, of which only the truthiness matters. *)
#[warnings="-register-all"]
Inductive jsval : Type :=
| JUndefined
| JNull
| JBool (b : bool)
| JNum (n : Z)
| JStr (s : string)
| JObj (props : list (string * jsval))
| JFun.

Abbreviation object := (list (string * jsval)).

(** [!!v] is [truthy v]: what [if (v)] and [!v] look at. *)
Definition truthy (v : jsval) : bool :=
  match v with
  | JUndefined | JNull => false
  | JBool b => b
  | JNum n => negb (Z.eqb n 0%Z)
  | JStr s => negb (String.eqb s "")
  | JObj _ | JFun => true
  end.

(** [v === lit] where one operand is a primitive.  Every [===] of the
    source has a literal on one side; two objects or functions would
    compare by reference, which is not represented, so that case is
    [false]. *)
Definition strict_eq (v lit : jsval) : bool :=
  match v, lit with
  | JUndefined, JUndefined => true
  | JNull, JNull => true
  | JBool a, JBool b => Bool.eqb a b
  | JNum a, JNum b => Z.eqb a b
  | JStr a, JStr b => String.eqb a b
  | _, _ => false
  end.

(** The names under which every plain object inherits a property from
    [Object.prototype]. *)
Definition inherited (key : string) : bool :=
  bool_decide
    (key ∈ ["constructor"; "hasOwnProperty"; "isPrototypeOf";
            "propertyIsEnumerable"; "toLocaleString"; "toString"; "valueOf";
            "__defineGetter__"; "__defineSetter__"; "__lookupGetter__";
            "__lookupSetter__"; "__proto__"]).

(** [o[key]] on a plain object ([{}] and what is stored in it) used as a
    dictionary, given by its own properties: the own property if there is
    one, else what is inherited under that name (a method, or the
    prototype itself under [__proto__]), else [undefined].  An assignment
    [o[key] = v] is an insertion: the source assigns only under a key
    that has just read falsy or, in the accessor, under a recorded model
    identity, and neither is ever an inherited name. *)
Definition js_get (o : gmap string jsval) (key : string) : jsval :=
  match o !! key with
  | Some v => v
  | None =>
      if inherited key
      then if String.eqb key "__proto__" then JObj [] else JFun
      else JUndefined
  end.

(** The decimal value of a string of digits, [None] for anything else. *)
Fixpoint digits (s : string) (acc : Z) : option Z :=
  match s with
  | EmptyString => Some acc
  | String c s' =>
      let d := (Z.of_nat (Ascii.nat_of_ascii c) - 48)%Z in
      if Z.leb 0 d && Z.leb d 9 then digits s' (10 * acc + d)%Z else None
  end.

(** [ToNumber], with [None] for [NaN].  Strings are read as plain decimal
    integers (the empty string is [0]); signs, fractions, exponents and
    surrounding blanks are not read and give [NaN]. *)
Definition to_number (v : jsval) : option Z :=
  match v with
  | JUndefined => None
  | JNull => Some 0%Z
  | JBool b => Some (if b then 1 else 0)%Z
  | JNum n => Some n
  | JStr s => digits s 0%Z
  | JObj _ | JFun => None
  end.

(** [v >= n]: a comparison with [NaN] is false. *)
Definition js_ge (v : jsval) (n : Z) : bool :=
  match to_number v with
  | Some x => Z.leb n x
  | None => false
  end.

(** ** The Waterline version *)

(** [version.split('.')] *)
Fixpoint split (version : string) : list string :=
  match version with
  | EmptyString => [EmptyString]
  | String c rest =>
      if Ascii.eqb c "."%char then EmptyString :: split rest
      else match split rest with
           | part :: parts => String c part :: parts
           | [] => [String c EmptyString]
           end
  end.

Record semver : Type := { MAJOR : jsval; MINOR : jsval; PATCH : jsval }.

(** [versionParts[i]]: a string, or [undefined] past the end. *)
Definition part (versionParts : list string) (i : nat) : jsval :=
  from_option JStr JUndefined (versionParts !! i).

Definition semverSplit (version : string) : semver :=
  let versionParts := split version in
  {| MAJOR := part versionParts 0;
     MINOR := part versionParts 1;
     PATCH := part versionParts 2 |}.

(** ** Errors and the monad of code that mutates and may throw *)

Inductive kind : Type := Adapter | Connection | Model.

Inductive error : Type :=
| DefaultAlreadySet (key : string)
    (* Default for <key> has already been set. *)
| TeardownOnStopOnce
    (* teardownOnStop option can only be specified once. *)
| AlreadyRegistered (k : kind) (key : string)
    (* Adapter <key> / Connection <key> / Model definition with identity
       <key> has already been registered. *)
| CannotFindModule (path : string)
| TypeError.

Inductive result (A : Type) : Type :=
| Ok (a : A)
| Throw (e : error).
Arguments Ok {A} a.
Arguments Throw {A} e.

#[global] Instance result_ret : MRet result := @Ok.
#[global] Instance result_bind : MBind result :=
  fun A B f r => match r with Ok a => f a | Throw e => Throw e end.

(** A computation over a mutable state [S]: the state that comes back
    after a [Throw] keeps every write made before it. *)
Definition M (S A : Type) : Type := S -> result A * S.

Definition ret {S A} (a : A) : M S A := fun s => (Ok a, s).

Definition bind {S A B} (m : M S A) (f : A -> M S B) : M S B :=
  fun s =>
    match m s with
    | (Ok a, s') => f a s'
    | (Throw e, s') => (Throw e, s')
    end.

Definition throw {S A} (e : error) : M S A := fun s => (Throw e, s).
Definition get {S} : M S S := fun s => (Ok s, s).
Definition put {S} (s : S) : M S unit := fun _ => (Ok tt, s).

#[global] Instance M_ret {S} : MRet (M S) := fun A => ret.
#[global] Instance M_bind {S} : MBind (M S) := fun A B f m => bind m f.

(** [Hoek.assert(cond, message)] *)
Definition assert {S} (cond : bool) (e : error) : M S unit :=
  if cond then ret tt else throw e.

(** [list.forEach(f)] *)
Fixpoint forEach {S A} (l : list A) (f : A -> M S unit) : M S unit :=
  match l with
  | [] => ret tt
  | x :: l' => f x;; forEach l' f
  end.

(** A value that throws [TypeError] when a property of it is read while
    it is [undefined]. *)
Definition defined {S A} (o : option A) : M S A :=
  match o with
  | Some a => ret a
  | None => throw TypeError
  end.

Definition modify {S} (f : S -> S) : M S unit := fun s => (Ok tt, f s).

(** A computation that may throw but leaves the state alone. *)
Definition lift {S A} (r : result A) : M S A := fun s => (r, s).

(** ** Realms, model definitions and configuration *)

(** A realm is the scope of one plugin; [server.root.realm] is [Root]. *)
Inductive realm : Type :=
| Root
| Plugin (name : string).

#[global] Instance realm_eq_dec : EqDecision realm.
Proof. solve_decision. Defined.

#[global] Instance realm_countable : Countable realm :=
  inj_countable'
    (fun r => match r with Root => None | Plugin name => Some name end)
    (fun o => match o with None => Root | Some name => Plugin name end)
    (fun r => match r with Root => eq_refl | Plugin _ => eq_refl end).

(** Modelled from the spec: [./schema] is not part of the sources.  The
    inputs it lets through are represented by their types: a model
    definition is an object with a string [identity], adapter and
    connection definitions are objects, [teardownOnStop] is a boolean when
    given, default values are arbitrary. *)
Record model : Type := { identity : string; attributes : object }.

(** The definition as the object that is stored and handed to Waterline. *)
Definition model_val (m : model) : jsval :=
  JObj (("identity", JStr (identity m)) :: attributes m).

Module Config.
(** What [server.dogwater] receives in its object form; a missing key is
    [None]. *)
Record t : Type := mk {
  adapters : option (list (string * object));
  connections : option (list (string * object));
  models : option (list model) }.
End Config.

(** [server.dogwater(config)] takes the object form or a bare array of
    model definitions. *)
Inductive config_input : Type :=
| ConfigArray (models : list model)
| ConfigObject (config : Config.t).

(** An adapter given to the plugin is a definition or the name of a module
    to [require]; so is the list of models. *)
Inductive adapter_option : Type :=
| AdapterObject (def : object)
| AdapterModule (path : string).

Inductive models_option : Type :=
| ModelsArray (models : list model)
| ModelsModule (path : string).

Module Options.
(** The plugin options of [exports.register]. *)
Record t : Type := mk {
  adapters : option (list (string * adapter_option));
  connections : option (list (string * object));
  models : option models_option;
  defaults : option (list (string * jsval));
  teardownOnStop : option bool }.
End Options.

(** What the module reads from its surroundings when it is loaded and when
    it resolves module names: the version in [waterline/package.json] and
    [require], which fails ([None]) on a module it cannot find.  The path
    handed to [require_models] is resolved against the working directory
    when it is relative. *)
Record env : Type := {
  waterline_version : string;
  require_models : string -> option (list model);
  require_adapter : string -> option object }.

Definition WaterlineVersion (e : env) : semver :=
  semverSplit (waterline_version e).

(** ** The collector *)

Module Collector.
(** [rootState.collector].  [connections] is [None] when the property
    holds [undefined]; [datastores] is [None] while the property does not
    exist. *)
Record t : Type := mk {
  adapters : gmap string jsval;
  connections : option (gmap string jsval);
  datastores : option (gmap string jsval);
  models : gmap string jsval;
  defaults : gmap string jsval;
  teardownOnStop : jsval }.

Definition set_adapters (v : gmap string jsval) (c : t) : t :=
  mk v (connections c) (datastores c) (models c) (defaults c)
     (teardownOnStop c).
Definition set_connections (v : option (gmap string jsval)) (c : t) : t :=
  mk (adapters c) v (datastores c) (models c) (defaults c)
     (teardownOnStop c).
Definition set_datastores (v : option (gmap string jsval)) (c : t) : t :=
  mk (adapters c) (connections c) v (models c) (defaults c)
     (teardownOnStop c).
Definition set_models (v : gmap string jsval) (c : t) : t :=
  mk (adapters c) (connections c) (datastores c) v (defaults c)
     (teardownOnStop c).
Definition set_defaults (v : gmap string jsval) (c : t) : t :=
  mk (adapters c) (connections c) (datastores c) (models c) v
     (teardownOnStop c).
Definition set_teardownOnStop (v : jsval) (c : t) : t :=
  mk (adapters c) (connections c) (datastores c) (models c) (defaults c) v.

(** The object literal of [exports.register]. *)
Definition empty : t :=
  {| adapters := ∅;
     connections := Some ∅;
     datastores := None;
     models := ∅;
     defaults := ∅;
     teardownOnStop := JNull |}.
End Collector.

(** ** The ORM engine *)

Module Waterline.
(** Waterline is an external package: the instance records what the
    plugin hands it, and the number of teardowns asked of it.  The
    configuration object of [initialize]: *)
Record config : Type := {
  adapters : gmap string jsval;
  connections : option (gmap string jsval);
  defaults : gmap string jsval }.

Record t : Type := mk {
  loaded : list jsval;
  options : option config;
  collections : option (gmap string jsval);
  teardowns : nat }.

(** Modelled from the spec: [new Waterline()] has no collections until it
    has been initialized ([collections] is [None], for [undefined]). *)
Definition new : t :=
  {| loaded := []; options := None; collections := None; teardowns := 0 |}.

(** [def[key]] on an object given by its properties. *)
Fixpoint prop (props : object) (key : string) : jsval :=
  match props with
  | [] => JUndefined
  | (k, v) :: rest => if String.eqb k key then v else prop rest key
  end.

(** [def.identity], when it is a string. *)
Definition identity_of (def : jsval) : option string :=
  match def with
  | JObj props =>
      match prop props "identity" with
      | JStr s => Some s
      | _ => None
      end
  | _ => None
  end.

(** [waterline.loadCollection(def)] *)
Definition loadCollection (def : jsval) (w : t) : t :=
  mk (loaded w ++ [def]) (options w) (collections w) (teardowns w).

(** A definition under its identity. *)
Definition keyed (def : jsval) : option (string * jsval) :=
  id ← identity_of def; Some (id, def).

(** Modelled from the spec: [waterline.initialize(config, next)], once
    [next] has been called without an error, has produced one collection
    per loaded definition, keyed by its identity.  A collection is
    represented by the definition it was made from. *)
Definition initialize (cfg : config) (w : t) : t :=
  mk (loaded w) (Some cfg) (Some (list_to_map (omap keyed (loaded w))))
     (teardowns w).

(** [waterline.teardown(next)]: the call is counted. *)
Definition teardown (w : t) : t :=
  mk (loaded w) (options w) (collections w) (S (teardowns w)).
End Waterline.

(** ** The state of the server *)

(** [setup] and [collector] are the fields of the root realm's
    [plugins.dogwater]; [realm_models st !! r] is the [models] field of
    realm [r]'s [plugins.dogwater], [None] while it is [undefined];
    [waterline] is the [server.waterline] decoration, [None] until the
    plugin has decorated the server. *)
Record State : Type := mkState {
  setup : bool;
  collector : option Collector.t;
  realm_models : gmap realm (list string);
  waterline : option Waterline.t }.

Definition set_setup (v : bool) (st : State) : State :=
  mkState v (collector st) (realm_models st) (waterline st).
Definition set_collector (v : option Collector.t) (st : State) : State :=
  mkState (setup st) v (realm_models st) (waterline st).
Definition set_realm_models (v : gmap realm (list string)) (st : State)
  : State :=
  mkState (setup st) (collector st) v (waterline st).
Definition set_waterline (v : option Waterline.t) (st : State) : State :=
  mkState (setup st) (collector st) (realm_models st) v.

(** The server before any plugin has been registered. *)
Definition init : State :=
  {| setup := false; collector := None; realm_models := ∅;
     waterline := None |}.

(** [internals.state(server.root).collector], read for one of its
    properties. *)
Definition the_collector : M State Collector.t :=
  st ← get; defined (collector st).

(** A write through the reference [collector]. *)
Definition update_collector (f : Collector.t -> Collector.t) : M State unit :=
  modify (fun st => set_collector (f <$> collector st) st).

(** [server.waterline], read for one of its properties. *)
Definition the_waterline : M State Waterline.t :=
  st ← get; defined (waterline st).

Definition update_waterline (f : Waterline.t -> Waterline.t) : M State unit :=
  modify (fun st => set_waterline (f <$> waterline st) st).

(** ** [internals.dogwater] *)

(** [Joi.attempt(config, Schema.dogwater)] is the typing of
    [config_input].  [this] is the realm of the server the method is
    called on; the collector is always the root's. *)
Definition dogwater (this : realm) (config : config_input) : M State unit :=
  (* Array of models, coerce to config *)
  let config :=
    match config with
    | ConfigArray models => Config.mk None None (Some models)
    | ConfigObject config => config
    end in
  (* Apply empty defaults *)
  let adapters := default [] (Config.adapters config) in
  let connections := default [] (Config.connections config) in
  let models := default [] (Config.models config) in
  (* Collect adapters, connections, models, ensuring no dupes *)
  let modelIds := identity <$> models in
  forEach adapters (fun '(name, def) =>
    collector ← the_collector;
    assert (negb (truthy (js_get (Collector.adapters collector) name)))
           (AlreadyRegistered Adapter name);;
    update_collector
      (Collector.set_adapters
         (<[name := JObj def]> (Collector.adapters collector))));;
  forEach connections (fun '(name, def) =>
    collector ← the_collector;
    conns ← defined (Collector.connections collector);
    assert (negb (truthy (js_get conns name)))
           (AlreadyRegistered Connection name);;
    update_collector
      (Collector.set_connections (Some (<[name := JObj def]> conns))));;
  forEach models (fun model =>
    let id := identity model in
    collector ← the_collector;
    assert (negb (truthy (js_get (Collector.models collector) id)))
           (AlreadyRegistered Model id);;
    update_collector
      (Collector.set_models
         (<[id := model_val model]> (Collector.models collector))));;
  (* If all went well, track which models belong to which realms *)
  modify (fun st =>
    set_realm_models
      (<[this := default [] (realm_models st !! this) ++ modelIds]>
         (realm_models st)) st).

(** ** [internals.registrationConfig] *)

(** [require(path)] *)
Definition require {A} (found : option A) (path : string) : result A :=
  match found with
  | Some exports => Ok exports
  | None => Throw (CannotFindModule path)
  end.

Definition resolve_adapter (e : env) (entry : string * adapter_option)
  : result (string * object) :=
  match entry with
  | (name, AdapterObject def) => Ok (name, def)
  | (name, AdapterModule path) =>
      def ← require (require_adapter e path) path; Ok (name, def)
  end.

Fixpoint resolve_adapters (e : env)
  (entries : list (string * adapter_option))
  : result (list (string * object)) :=
  match entries with
  | [] => Ok []
  | entry :: rest =>
      resolved ← resolve_adapter e entry;
      others ← resolve_adapters e rest;
      Ok (resolved :: others)
  end.

(** The copy of the options without [defaults] and [teardownOnStop], with
    the module names replaced by what [require] returns.  It reads and
    writes nothing of the server. *)
Definition registrationConfig (e : env) (options : Options.t)
  : result Config.t :=
  (* Resolve models *)
  models ←
    match Options.models options with
    | Some (ModelsModule path) =>
        models ← require (require_models e path) path; Ok (Some models)
    | Some (ModelsArray models) => Ok (Some models)
    | None => Ok None
    end;
  (* Resolve adapters *)
  adapters ←
    match Options.adapters options with
    | Some entries =>
        resolved ← resolve_adapters e entries; Ok (Some resolved)
    | None => Ok None
    end;
  Ok (Config.mk adapters (Options.connections options) models).

(** ** [exports.register] *)

(** The test on the Waterline version that guards the renaming of
    [connections] to [datastores]. *)
Definition renames_connections (v : semver) : bool :=
  strict_eq (MAJOR v) (JNum 0%Z) && js_ge (MINOR v) 13%Z.

(** [Joi.assert(options, Schema.plugin)] is the typing of [Options.t].
    The merge is made through [server.root.dogwater], so the model
    identities go to the root realm whatever [server] is. *)
Definition register (e : env) (server : realm) (options : Options.t)
  : M State unit :=
  rootState ← get;
  (if negb (setup rootState) then
     modify (set_collector (Some Collector.empty));;
     (if renames_connections (WaterlineVersion e) then
        (* rename property 'connections' to 'datastores' *)
        update_collector (fun c =>
          Collector.set_connections None
            (Collector.set_datastores (Collector.connections c) c))
      else ret tt);;
     (* Here's the ORM! *)
     modify (set_waterline (Some Waterline.new));;
     modify (set_setup true)
   else ret tt);;
  (* Collect defaults *)
  let defaults := default [] (Options.defaults options) in
  forEach defaults (fun '(key, value) =>
    collector ← the_collector;
    assert (negb (truthy (js_get (Collector.defaults collector) key)))
           (DefaultAlreadySet key);;
    update_collector
      (Collector.set_defaults
         (<[key := value]> (Collector.defaults collector))));;
  (* Decide whether server stop should teardown *)
  match Options.teardownOnStop options with
  | Some teardownOnStop =>
      collector ← the_collector;
      assert (strict_eq (Collector.teardownOnStop collector) JNull)
             TeardownOnStopOnce;;
      update_collector (Collector.set_teardownOnStop (JBool teardownOnStop))
  | None => ret tt
  end;;
  config ← lift (registrationConfig e options);
  dogwater Root (ConfigObject config).

(** ** [internals.initialize] and [internals.stop] *)

(** The definitions are loaded in the order of the map's keys, which is
    not the insertion order of a JavaScript object; nothing below depends
    on it.  [Waterline.Collection.extend(model)] is represented by the
    definition itself. *)
Definition initialize : M State unit :=
  collector ← the_collector;
  (* Hand the models to waterline *)
  forEach (map_to_list (Collector.models collector)) (fun '(id, model) =>
    _ ← the_waterline;
    update_waterline (Waterline.loadCollection model));;
  let config :=
    {| Waterline.adapters := Collector.adapters collector;
       Waterline.connections := Collector.connections collector;
       Waterline.defaults := Collector.defaults collector |} in
  (* Finally init waterline and carry on *)
  _ ← the_waterline;
  update_waterline (Waterline.initialize config).

Definition stop : M State unit :=
  collector ← the_collector;
  (* Do not teardown if specifically ask not to *)
  if strict_eq (Collector.teardownOnStop collector) (JBool false) then ret tt
  else
    _ ← the_waterline;
    update_waterline Waterline.teardown.

(** ** [internals.collections] *)

(** [server.collections(all)] with [this] the realm of the server, and
    [request.collections(all)] with [this] the realm of the request's
    route: both read the one [server.waterline]. *)
Definition collections (this : realm) (all : jsval)
  : M State (gmap string jsval) :=
  waterline ← the_waterline;
  match Waterline.collections waterline with
  | None => ret ∅
  | Some cs =>
      if truthy all then ret cs
      else
        st ← get;
        let models := default [] (realm_models st !! this) in
        ret (foldl (fun (collections : gmap string jsval) id =>
                      <[id := js_get cs id]> collections) ∅ models)
  end.

(** ** [internals.state] *)

Module RealmState.
(** [realm.plugins.dogwater], what the plugin keeps in one realm: [setup]
    and [collector] are written in the root realm only, [models] in any
    realm.  A property that has not been written reads [undefined]:
    [false] for [setup], [None] for the other two. *)
Record t : Type := mk {
  setup : bool;
  collector : option Collector.t;
  models : option (list string) }.

Definition set_models (v : option (list string)) (s : t) : t :=
  mk (setup s) (collector s) v.

(** The object literal [{}]. *)
Definition empty : t :=
  {| setup := false; collector := None; models := None |}.
End RealmState.

(** [srv.realm.plugins.dogwater = srv.realm.plugins.dogwater || {}], on
    the [plugins.dogwater] of every realm, [None] where the property is
    not there: the state of the realm, created empty when there is none.
    The [State] above is these states read together, see [flat]. *)
Definition state (srv : realm) : M (gmap realm RealmState.t) RealmState.t :=
  plugins ← get;
  let state := default RealmState.empty (plugins !! srv) in
  put (<[srv := state]> plugins);;
  ret state.

(** The last two statements of [internals.dogwater], with the write made
    through the reference that [internals.state] returned. *)
Definition track_models (this : realm) (modelIds : list string)
  : M (gmap realm RealmState.t) unit :=
  state ← state this;
  modify (<[this := RealmState.set_models
                      (Some (default [] (RealmState.models state)
                             ++ modelIds)) state]>).

(** The realms' states and the [server.waterline] decoration as one
    [State]: [setup] and [collector] are the root realm's, and each
    realm's [models] is its record. *)
Definition flat (plugins : gmap realm RealmState.t)
  (waterline : option Waterline.t) : State :=
  {| setup := from_option RealmState.setup false (plugins !! Root);
     collector := plugins !! Root ≫= RealmState.collector;
     realm_models := omap RealmState.models plugins;
     waterline := waterline |}.

(** ** Runs *)

(** What a plugin can do while the server is being composed: register the
    plugin with options, or call [server.dogwater], which exists once the
    plugin has decorated the server. *)
Inductive call : Type :=
| Register (server : realm) (options : Options.t)
| Dogwater (this : realm) (config : config_input).

Definition run_call (e : env) (c : call) : M State unit :=
  match c with
  | Register server options => register e server options
  | Dogwater this config =>
      st ← get;
      if setup st then dogwater this config else throw TypeError
  end.

(** The state after a sequence of calls, each one starting from the state
    the one before left, also when that one threw. *)
Definition run (e : env) (calls : list call) (st : State) : State :=
  foldl (fun st c => snd (run_call e c st)) st calls.

(** * Notions used in the statements *)

(** ** The loops as functions of a dictionary *)

(** The three loops of [dogwater] and the loop over the defaults follow
    one pattern: refuse a key whose slot reads truthy, store otherwise.
    [merge] is that pattern on one dictionary; it returns the refused key,
    if any, and the dictionary as left by the loop. *)
Fixpoint merge (entries : list (string * jsval)) (m : gmap string jsval)
  : option string * gmap string jsval :=
  match entries with
  | [] => (None, m)
  | (key, v) :: rest =>
      if truthy (js_get m key) then (Some key, m)
      else merge rest (<[key := v]> m)
  end.

(** The result of a loop that refused [refused]. *)
Definition outcome (mk : string -> error) (refused : option string)
  : result unit :=
  match refused with
  | None => Ok tt
  | Some key => Throw (mk key)
  end.

(** The entries of a configuration as they are stored. *)
Definition stored_objects (l : list (string * object))
  : list (string * jsval) :=
  prod_map id JObj <$> l.
Definition stored_models (l : list model) : list (string * jsval) :=
  (fun m => (identity m, model_val m)) <$> l.

(** Unfolds the operations of the monad in the goal. *)
Ltac run_monad :=
  unfold mbind, M_bind, mret, M_ret, bind, ret, throw, get, put, modify,
    assert, defined, the_collector, the_waterline, update_collector,
    update_waterline;
  simpl.

(** The first statement of [dogwater]: a bare array becomes the object
    that holds it under [models]. *)
Definition normalize (config : config_input) : Config.t :=
  match config with
  | ConfigArray models => Config.mk None None (Some models)
  | ConfigObject config => config
  end.

(** The entries the three loops go through, and the identities recorded
    at the end. *)
Definition adapter_entries (config : config_input) : list (string * jsval) :=
  stored_objects (default [] (Config.adapters (normalize config))).
Definition connection_entries (config : config_input)
  : list (string * jsval) :=
  stored_objects (default [] (Config.connections (normalize config))).
Definition model_entries (config : config_input) : list (string * jsval) :=
  stored_models (default [] (Config.models (normalize config))).
Definition model_ids (config : config_input) : list string :=
  identity <$> default [] (Config.models (normalize config)).

(** The result of the three loops and the collector they leave. *)
Definition merged (config : config_input) (c : Collector.t)
  (conns : gmap string jsval) : result unit * Collector.t :=
  let a := merge (adapter_entries config) (Collector.adapters c) in
  let c1 := Collector.set_adapters a.2 c in
  match a.1 with
  | Some key => (Throw (AlreadyRegistered Adapter key), c1)
  | None =>
      let n := merge (connection_entries config) conns in
      let c2 := Collector.set_connections (Some n.2) c1 in
      match n.1 with
      | Some key => (Throw (AlreadyRegistered Connection key), c2)
      | None =>
          let m := merge (model_entries config) (Collector.models c) in
          (outcome (AlreadyRegistered Model) m.1,
           Collector.set_models m.2 c2)
      end
  end.

(** The last statement of [dogwater]. *)
Definition track (this : realm) (ids : list string) (st : State) : State :=
  set_realm_models
    (<[this := default [] (realm_models st !! this) ++ ids]>
       (realm_models st)) st.

(** The defaults and the [teardownOnStop] flag as [register] collects
    them. *)
Definition collected (options : Options.t) (c : Collector.t)
  : result unit * Collector.t :=
  let d := merge (default [] (Options.defaults options))
                 (Collector.defaults c) in
  let c1 := Collector.set_defaults d.2 c in
  match d.1 with
  | Some key => (Throw (DefaultAlreadySet key), c1)
  | None =>
      match Options.teardownOnStop options with
      | Some b =>
          if strict_eq (Collector.teardownOnStop c) JNull
          then (Ok tt, Collector.set_teardownOnStop (JBool b) c1)
          else (Throw TeardownOnStopOnce, c1)
      | None => (Ok tt, c1)
      end
  end.

(** The first block of [register]. *)
Definition installed (st : State) : State :=
  set_setup true
    (set_waterline (Some Waterline.new)
       (set_collector (Some Collector.empty) st)).

(** ** The invariant of runs *)

(** Every stored value is an object, hence truthy. *)
Definition objects (m : gmap string jsval) : Prop :=
  forall key v, m !! key = Some v -> truthy v = true.

(** Every stored model definition sits under its own identity. *)
Definition keyed_by_identity (m : gmap string jsval) : Prop :=
  forall key v, m !! key = Some v -> Waterline.identity_of v = Some key.

(** A collector as registrations leave it: [connections] is defined,
    adapters and connections are objects, models sit under their
    identities. *)
Definition well_formed (c : Collector.t) : Prop :=
  objects (Collector.adapters c) /\
  (exists conns, Collector.connections c = Some conns /\ objects conns) /\
  keyed_by_identity (Collector.models c).

(** The identities a realm has recorded are keys of the collector. *)
Definition tracked (st : State) (c : Collector.t) : Prop :=
  forall r ids id,
    realm_models st !! r = Some ids -> id ∈ ids ->
    is_Some (Collector.models c !! id).

(** Before the first registration nothing is set up.  From then on the
    collector is well formed, the realms' records are within its models,
    and the Waterline instance is as it was created. *)
Definition Inv (st : State) : Prop :=
  match collector st with
  | None => setup st = false /\ waterline st = None /\ realm_models st = ∅
  | Some c =>
      setup st = true /\
      waterline st = Some Waterline.new /\
      well_formed c /\ tracked st c
  end.

(** ** Fragments and their keys *)

(** The keys of one kind in a configuration, and the collector's
    dictionary for that kind. *)
Definition keys_of (k : kind) (config : config_input) : list string :=
  match k with
  | Adapter => (adapter_entries config).*1
  | Connection => (connection_entries config).*1
  | Model => model_ids config
  end.

Definition dictionary (k : kind) (c : Collector.t) : gmap string jsval :=
  match k with
  | Adapter => Collector.adapters c
  | Connection => default ∅ (Collector.connections c)
  | Model => Collector.models c
  end.


(** A sequence of merges, each made by some realm. *)
Definition merge_all (fragments : list (realm * config_input))
  : M State unit :=
  forEach fragments (fun '(this, config) => dogwater this config).

(** All the entries they bring, in order. *)
Definition all_adapters (fragments : list (realm * config_input)) :=
  fragments ≫= (fun f => adapter_entries f.2).
Definition all_connections (fragments : list (realm * config_input)) :=
  fragments ≫= (fun f => connection_entries f.2).
Definition all_models (fragments : list (realm * config_input)) :=
  fragments ≫= (fun f => model_entries f.2).

(** ** Records and registered identities *)

(** [realm.plugins.dogwater.models || []] *)
Definition record (r : realm) (st : State) : list string :=
  default [] (realm_models st !! r).

(** The models of the collector, none while there is no collector. *)
Definition collector_models (st : State) : gmap string jsval :=
  from_option Collector.models ∅ (collector st).

(** The realm a call records its models under, and the identities of the
    models it brings. *)
Definition call_realm (c : call) : realm :=
  match c with
  | Register _ _ => Root
  | Dogwater this _ => this
  end.

Definition call_models (e : env) (c : call) : list string :=
  match c with
  | Register _ options =>
      match registrationConfig e options with
      | Ok config => model_ids (ConfigObject config)
      | Throw _ => []
      end
  | Dogwater _ config => model_ids config
  end.

(** What a call with result [res] adds to the record of realm [r]. *)
Definition added (e : env) (r : realm) (c : call) (res : result unit)
  : list string :=
  match res with
  | Ok _ => if decide (call_realm c = r) then call_models e c else []
  | Throw _ => []
  end.

(** The identities realm [r] registered in a run: those of its calls that
    returned, in order. *)
Fixpoint registered (e : env) (r : realm) (calls : list call) (st : State)
  : list string :=
  match calls with
  | [] => []
  | c :: rest =>
      added e r c (run_call e c st).1
        ++ registered e r rest (run_call e c st).2
  end.



(** ** The teardown flag *)

(** [collector.teardownOnStop], when there is a collector. *)
Definition flag (st : State) : option jsval :=
  Collector.teardownOnStop <$> collector st.

(** The option as a call supplies it. *)
Definition call_teardownOnStop (c : call) : option bool :=
  match c with
  | Register _ options => Options.teardownOnStop options
  | Dogwater _ _ => None
  end.

(** ** Versions, modules and what the collector keeps *)

(** No character of [s] is a dot. *)
Fixpoint dotless (s : string) : bool :=
  match s with
  | EmptyString => true
  | String c s' => negb (Ascii.eqb c "."%char) && dotless s'
  end.

(** How an adapter of the options shows in the configuration: under the
    same name, a definition as it is and a module name as what [require]
    returns for it. *)
Definition resolved (e : env) (given : string * adapter_option)
  (got : string * object) : Prop :=
  given.1 = got.1 /\
  match given.2 with
  | AdapterObject def => got.2 = def
  | AdapterModule path => require_adapter e path = Some got.2
  end.

(** An adapter of the options that needs no module, or whose module is
    found. *)
Definition resolvable (e : env) (given : string * adapter_option) : Prop :=
  match given.2 with
  | AdapterObject _ => True
  | AdapterModule path => is_Some (require_adapter e path)
  end.

(** Adapters given as definitions, none as a module name. *)
Definition plain_adapters (adapters : list (string * object))
  : list (string * adapter_option) :=
  prod_map id AdapterObject <$> adapters.

(** The entries of one kind in a configuration, as they are stored. *)
Definition entries_of (k : kind) (config : config_input)
  : list (string * jsval) :=
  match k with
  | Adapter => adapter_entries config
  | Connection => connection_entries config
  | Model => model_entries config
  end.

(** All the entries of one kind that a sequence of fragments brings. *)
Definition all_entries (k : kind) (fragments : list (realm * config_input))
  : list (string * jsval) :=
  fragments ≫= (fun f => entries_of k f.2).

(** What the collector keeps from one state to a later one: the entries
    of its three dictionaries, the defaults whose value reads truthy, the
    flag once it is set, and the absence or presence of [datastores]. *)
Definition grows (c c' : Collector.t) : Prop :=
  (forall k key def,
      dictionary k c !! key = Some def -> dictionary k c' !! key = Some def) /\
  (forall key v,
      Collector.defaults c !! key = Some v -> truthy v = true ->
      Collector.defaults c' !! key = Some v) /\
  (Collector.teardownOnStop c <> JNull ->
   Collector.teardownOnStop c' = Collector.teardownOnStop c) /\
  Collector.datastores c' = Collector.datastores c.

(** The collector a registration works on: the one of the state or, for
    the first registration, the empty one it creates. *)
Definition working_collector (st : State) : Collector.t :=
  default Collector.empty (collector st).

(** ** Concrete inputs *)

(** A server where no module name resolves. *)
Definition plain_env (version : string) : env :=
  {| waterline_version := version;
     require_models := fun _ => None;
     require_adapter := fun _ => None |}.

(** Plugin options: none, defaults and the flag only, models only. *)
Definition no_options : Options.t := Options.mk None None None None None.

Definition with_defaults (defaults : list (string * jsval))
  (teardownOnStop : option bool) : Options.t :=
  Options.mk None None None (Some defaults) teardownOnStop.

Definition with_models (models : list model) : Options.t :=
  Options.mk None None (Some (ModelsArray models)) None None.

(** Model, connection and adapter definitions. *)
Definition user : model := {| identity := "user"; attributes := [] |}.
Definition session : model := {| identity := "session"; attributes := [] |}.
Definition product : model := {| identity := "product"; attributes := [] |}.

Definition memory_db : list (string * object) :=
  [("db", [("adapter", JStr "memory")])].

(** The plugin registered once, with the model [user]. *)
Definition one_registration : list call :=
  [Register (Plugin "dogwater") (with_models [user])].

(** The collector after it. *)
Definition collector_with_user : Collector.t :=
  Collector.set_models {["user" := model_val user]} Collector.empty.

(** Two fragments with distinct keys on a collector just created. *)
Definition two_fragments : list (realm * config_input) :=
  [(Plugin "a",
    ConfigObject (Config.mk (Some [("memory", [])]) (Some memory_db)
                    (Some [user; session])));
   (Plugin "b", ConfigArray [product])].

(** A server where the module [/srv/models] exports the models [user] and
    [session] and the module [sails-memory] exports an adapter. *)
Definition disk_env : env :=
  {| waterline_version := "0.12.2";
     require_models := fun path =>
       if String.eqb path "/srv/models" then Some [user; session] else None;
     require_adapter := fun path =>
       if String.eqb path "sails-memory"
       then Some [("identity", JStr "sails-memory")] else None |}.

(** Plugin options that name a module for the models and one for an
    adapter. *)
Definition module_options : Options.t :=
  Options.mk
    (Some [("disk", AdapterObject []);
           ("memory", AdapterModule "sails-memory")])
    (Some memory_db) (Some (ModelsModule "/srv/models"))
    (Some [("migrate", JStr "safe")]) (Some false).

(** A configuration with an adapter, a connection and the given models. *)
Definition shop_config (models : list model) : config_input :=
  ConfigObject (Config.mk (Some [("memory", [])]) (Some memory_db)
                  (Some models)).

(** The plugin registered with the connection [db] and nothing else. *)
Definition one_connection : list call :=
  [Register (Plugin "a") (Options.mk None (Some memory_db) None None None)].

(** The collector after the plugin has been registered with the default
    [migrate]. *)
Definition collector_with_default : Collector.t :=
  Collector.set_defaults {["migrate" := JStr "safe"]} Collector.empty.

(** Waterline after [one_registration] and initialization. *)
Definition waterline_with_user : Waterline.t :=
  {| Waterline.loaded := [model_val user];
     Waterline.options :=
       Some {| Waterline.adapters := ∅;
               Waterline.connections := Some ∅;
               Waterline.defaults := ∅ |};
     Waterline.collections := Some {["user" := model_val user]};
     Waterline.teardowns := 0 |}.

(** * Proofs *)

(** ** One loop on one dictionary *)

Section merge_facts.
Implicit Types (m : gmap string jsval) (l : list (string * jsval)).

(** A key reads falsy when it is neither set nor inherited. *)
Lemma js_get_None m key :
  m !! key = None -> inherited key = false -> truthy (js_get m key) = false.
Proof. unfold js_get. intros -> ->. reflexivity. Qed.

Lemma js_get_insert_ne m key key' v :
  key <> key' -> js_get (<[key := v]> m) key' = js_get m key'.
Proof. intros Hne. unfold js_get. by rewrite lookup_insert_ne. Qed.

Lemma js_get_Some m key v : m !! key = Some v -> js_get m key = v.
Proof. unfold js_get. by intros ->. Qed.

(** A slot that reads truthy is never written. *)
Lemma merge_keeps_truthy l : forall m key v,
  m !! key = Some v -> truthy v = true -> (merge l m).2 !! key = Some v.
Proof.
  induction l as [|[k x] l IH]; intros m key v Hk Hv; simpl; [done|].
  destruct (truthy (js_get m k)) eqn:E; simpl; [done|].
  apply IH; [|done].
  rewrite lookup_insert_ne; [done|].
  intros ->. rewrite (js_get_Some _ _ _ Hk) in E. congruence.
Qed.

(** No key disappears. *)
Lemma merge_keeps_keys l : forall m key,
  is_Some (m !! key) -> is_Some ((merge l m).2 !! key).
Proof.
  induction l as [|[k x] l IH]; intros m key Hk; simpl; [done|].
  destruct (truthy (js_get m k)); simpl; [done|].
  apply IH. rewrite lookup_insert_is_Some. destruct (decide (k = key)); auto.
Qed.

(** The refused key is one of the entries', and its slot reads truthy. *)
Lemma merge_refused l : forall m key,
  (merge l m).1 = Some key ->
  key ∈ l.*1 /\ truthy (js_get (merge l m).2 key) = true.
Proof.
  induction l as [|[k x] l IH]; intros m key; simpl; [done|].
  destruct (truthy (js_get m k)) eqn:E; simpl.
  - intros [= <-]. split; [left | done].
  - intros H. destruct (IH _ _ H) as [Hin Ht]. split; [by right | done].
Qed.

(** An entry whose key is already taken by a truthy value stops the
    loop. *)
Lemma merge_taken l : forall m key,
  key ∈ l.*1 -> truthy (js_get m key) = true ->
  exists refused, (merge l m).1 = Some refused.
Proof.
  induction l as [|[k x] l IH]; intros m key Hin Ht; simpl in *.
  - by apply elem_of_nil in Hin.
  - destruct (truthy (js_get m k)) eqn:E; simpl; [eauto|].
    apply elem_of_cons in Hin as [->|Hin]; [congruence|].
    apply (IH _ key); [done|].
    rewrite js_get_insert_ne; [done|]. intros ->. congruence.
Qed.

(** Entries with fresh, distinct keys, none of them an inherited name,
    are all stored. *)
Lemma merge_fresh l : forall m,
  NoDup l.*1 ->
  (forall key, key ∈ l.*1 -> m !! key = None /\ inherited key = false) ->
  merge l m = (None, list_to_map l ∪ m).
Proof.
  induction l as [|[k x] l IH]; intros m Hnd Hfresh; simpl in *.
  - by rewrite (left_id_L ∅ (∪)).
  - apply NoDup_cons in Hnd as [Hk Hnd].
    destruct (Hfresh k) as [Hkm Hki]; [left|].
    rewrite js_get_None by done.
    rewrite IH; [|done|].
    + f_equal. rewrite <- insert_union_l.
      symmetry. apply insert_union_r. by apply not_elem_of_list_to_map_1.
    + intros key Hin. destruct (Hfresh key) as [Hm Hi]; [by right|].
      split; [|done]. rewrite lookup_insert_ne; [done|]. intros ->. done.
Qed.

(** After a loop that ran to its end every key of the entries is
    there. *)
Lemma merge_stored l : forall m key,
  (merge l m).1 = None -> key ∈ l.*1 -> is_Some ((merge l m).2 !! key).
Proof.
  induction l as [|[k x] l IH]; intros m key; simpl.
  - intros _ Hin. by apply elem_of_nil in Hin.
  - destruct (truthy (js_get m k)) eqn:E; simpl; [done|].
    intros Hok Hin. apply elem_of_cons in Hin as [->|Hin]; [|by apply IH].
    apply merge_keeps_keys. rewrite lookup_insert_eq. eauto.
Qed.

(** Whatever the loop stores comes from the entries. *)
Lemma merge_lookup l : forall m key v,
  (merge l m).2 !! key = Some v -> m !! key = Some v \/ (key, v) ∈ l.
Proof.
  induction l as [|[k x] l IH]; intros m key v; simpl; [auto|].
  destruct (truthy (js_get m k)); simpl; [auto|].
  intros H. apply IH in H as [H|H]; [|right; by right].
  destruct (decide (k = key)) as [->|Hne].
  - rewrite lookup_insert_eq in H. injection H as ->. right; left.
  - rewrite lookup_insert_ne in H by done. auto.
Qed.

End merge_facts.

(** ** The loops of the source *)

(** Each loop of the source does on its dictionary what [merge] does, and
    touches nothing else. *)
Lemma adapters_loop (l : list (string * object)) : forall st c,
  collector st = Some c ->
  forEach l (fun '(name, def) =>
    collector ← the_collector;
    assert (negb (truthy (js_get (Collector.adapters collector) name)))
           (AlreadyRegistered Adapter name);;
    update_collector
      (Collector.set_adapters
         (<[name := JObj def]> (Collector.adapters collector)))) st
  = (outcome (AlreadyRegistered Adapter)
       (merge (stored_objects l) (Collector.adapters c)).1,
     set_collector
       (Some (Collector.set_adapters
                (merge (stored_objects l) (Collector.adapters c)).2 c)) st).
Proof.
  induction l as [|[name def] l IH]; intros [su co rm wl] [a cn ds ms df t] Hc;
    simpl in Hc; subst co.
  - reflexivity.
  - cbn [forEach stored_objects fmap list_fmap prod_map merge id fst snd].
    run_monad.
    destruct (truthy (js_get a name)); simpl; [reflexivity|].
    exact (IH (mkState _ _ _ _) (Collector.mk _ _ _ _ _ _) eq_refl).
Qed.

Lemma connections_loop (l : list (string * object)) : forall st c conns,
  collector st = Some c -> Collector.connections c = Some conns ->
  forEach l (fun '(name, def) =>
    collector ← the_collector;
    conns ← defined (Collector.connections collector);
    assert (negb (truthy (js_get conns name)))
           (AlreadyRegistered Connection name);;
    update_collector
      (Collector.set_connections (Some (<[name := JObj def]> conns)))) st
  = (outcome (AlreadyRegistered Connection)
       (merge (stored_objects l) conns).1,
     set_collector
       (Some (Collector.set_connections
                (Some (merge (stored_objects l) conns).2) c)) st).
Proof.
  induction l as [|[name def] l IH];
    intros [su co rm wl] [a cn ds ms df t] conns Hc Hn;
    simpl in Hc, Hn; subst co cn.
  - reflexivity.
  - cbn [forEach stored_objects fmap list_fmap prod_map merge id fst snd].
    run_monad.
    destruct (truthy (js_get conns name)); simpl; [reflexivity|].
    exact (IH (mkState _ _ _ _) (Collector.mk _ _ _ _ _ _) _ eq_refl eq_refl).
Qed.

(** With [connections] undefined the first connection is a [TypeError]. *)
Lemma connections_loop_undefined (l : list (string * object)) st c :
  collector st = Some c -> Collector.connections c = None -> l <> [] ->
  forEach l (fun '(name, def) =>
    collector ← the_collector;
    conns ← defined (Collector.connections collector);
    assert (negb (truthy (js_get conns name)))
           (AlreadyRegistered Connection name);;
    update_collector
      (Collector.set_connections (Some (<[name := JObj def]> conns)))) st
  = (Throw TypeError, st).
Proof.
  destruct l as [|[name def] l]; [done|]. intros Hc Hn _.
  destruct st as [su co rm wl]; destruct c as [a cn ds ms df t];
    simpl in Hc, Hn; subst co cn.
  reflexivity.
Qed.

Lemma models_loop (l : list model) : forall st c,
  collector st = Some c ->
  forEach l (fun model =>
    let id := identity model in
    collector ← the_collector;
    assert (negb (truthy (js_get (Collector.models collector) id)))
           (AlreadyRegistered Model id);;
    update_collector
      (Collector.set_models
         (<[id := model_val model]> (Collector.models collector)))) st
  = (outcome (AlreadyRegistered Model)
       (merge (stored_models l) (Collector.models c)).1,
     set_collector
       (Some (Collector.set_models
                (merge (stored_models l) (Collector.models c)).2 c)) st).
Proof.
  induction l as [|model l IH]; intros [su co rm wl] [a cn ds ms df t] Hc;
    simpl in Hc; subst co.
  - reflexivity.
  - cbn [forEach stored_models fmap list_fmap merge fst snd].
    run_monad.
    destruct (truthy (js_get ms (identity model))); simpl; [reflexivity|].
    exact (IH (mkState _ _ _ _) (Collector.mk _ _ _ _ _ _) eq_refl).
Qed.

Lemma defaults_loop (l : list (string * jsval)) : forall st c,
  collector st = Some c ->
  forEach l (fun '(key, value) =>
    collector ← the_collector;
    assert (negb (truthy (js_get (Collector.defaults collector) key)))
           (DefaultAlreadySet key);;
    update_collector
      (Collector.set_defaults
         (<[key := value]> (Collector.defaults collector)))) st
  = (outcome DefaultAlreadySet (merge l (Collector.defaults c)).1,
     set_collector
       (Some (Collector.set_defaults (merge l (Collector.defaults c)).2 c))
       st).
Proof.
  induction l as [|[key value] l IH];
    intros [su co rm wl] [a cn ds ms df t] Hc; simpl in Hc; subst co.
  - reflexivity.
  - cbn [forEach merge fst snd].
    run_monad.
    destruct (truthy (js_get df key)); simpl; [reflexivity|].
    exact (IH (mkState _ _ _ _) (Collector.mk _ _ _ _ _ _) eq_refl).
Qed.

(** ** [dogwater] and [register] as functions of the collector *)

(** The two functions on a collector that is there, with its
    [connections] defined. *)
Lemma run_bind {S A B} (m : M S A) (f : A -> M S B) (s : S) :
  (m ≫= f) s =
  match m s with
  | (Ok a, s') => f a s'
  | (Throw e, s') => (Throw e, s')
  end.
Proof. reflexivity. Qed.

Lemma dogwater_eq this config st c conns :
  collector st = Some c -> Collector.connections c = Some conns ->
  dogwater this config st =
  (match merged config c conns with
   | (Ok _, c') =>
       (Ok tt, track this (model_ids config) (set_collector (Some c') st))
   | (Throw e, c') => (Throw e, set_collector (Some c') st)
   end).
Proof.
  intros Hc Hn. unfold dogwater, merged. cbv zeta.
  fold (normalize config).
  rewrite run_bind, (adapters_loop _ _ _ Hc).
  fold (adapter_entries config).
  destruct (merge (adapter_entries config) (Collector.adapters c))
    as [[key|] ma]; cbn [fst snd outcome]; [reflexivity|].
  rewrite run_bind.
  erewrite connections_loop;
    [|reflexivity|destruct c; simpl in *; eassumption].
  fold (connection_entries config).
  destruct (merge (connection_entries config) conns) as [[key|] mc];
    cbn [fst snd outcome]; [reflexivity|].
  rewrite run_bind.
  erewrite models_loop by reflexivity.
  fold (model_entries config).
  destruct c as [a cn ds ms df t].
  cbn [Collector.models Collector.set_connections Collector.set_adapters].
  destruct (merge (model_entries config) ms) as [[key|] mm];
    cbn [fst snd outcome]; [reflexivity|].
  destruct st; reflexivity.
Qed.

(** [split] yields strings, and a string is never [=== 0]. *)
Lemma renames_connections_never (version : string) :
  renames_connections (semverSplit version) = false.
Proof.
  unfold renames_connections, semverSplit, part. cbn [MAJOR].
  destruct (split version !! 0%nat); reflexivity.
Qed.

(** The first registration sets the server up and goes on as any other. *)
Lemma register_fresh e server options st :
  setup st = false ->
  register e server options st = register e server options (installed st).
Proof.
  intros Hs. unfold register. rewrite !run_bind.
  unfold WaterlineVersion. rewrite renames_connections_never.
  destruct st as [su co rm wl]; simpl in Hs; subst su. reflexivity.
Qed.

Lemma register_eq e server options st c :
  setup st = true -> collector st = Some c ->
  register e server options st =
  match collected options c with
  | (Throw err, c') => (Throw err, set_collector (Some c') st)
  | (Ok _, c') =>
      match registrationConfig e options with
      | Throw err => (Throw err, set_collector (Some c') st)
      | Ok config =>
          dogwater Root (ConfigObject config) (set_collector (Some c') st)
      end
  end.
Proof.
  intros Hs Hc. unfold register, collected. cbv zeta.
  rewrite run_bind. cbn [get]. rewrite Hs. cbn [negb].
  rewrite !run_bind. cbn [mret M_ret ret]. rewrite run_bind.
  rewrite (defaults_loop _ _ _ Hc).
  destruct (merge _ (Collector.defaults c)) as [[key|] md];
    cbn [fst snd outcome]; [reflexivity|].
  destruct st as [su co rm wl]; destruct c as [a cn ds ms df t];
    simpl in Hs, Hc; subst su co.
  destruct (Options.teardownOnStop options) as [b|].
  - run_monad. destruct (strict_eq t JNull); simpl; [|reflexivity].
    unfold lift. destruct (registrationConfig e options); reflexivity.
  - run_monad. unfold lift.
    destruct (registrationConfig e options); reflexivity.
Qed.

(** ** The invariant *)

Lemma identity_of_model_val (m : model) :
  Waterline.identity_of (model_val m) = Some (identity m).
Proof. reflexivity. Qed.

Lemma identity_of_truthy v key :
  Waterline.identity_of v = Some key -> truthy v = true.
Proof. destruct v; simpl; congruence. Qed.

Lemma keyed_objects m : keyed_by_identity m -> objects m.
Proof. intros H key v Hv. eapply identity_of_truthy, H, Hv. Qed.

Lemma stored_objects_elem key v (l : list (string * object)) :
  (key, v) ∈ stored_objects l -> truthy v = true.
Proof.
  unfold stored_objects. intros ([k d] & [= -> ->] & _)%list_elem_of_fmap.
  reflexivity.
Qed.

Lemma stored_models_elem key v (l : list model) :
  (key, v) ∈ stored_models l -> Waterline.identity_of v = Some key.
Proof.
  unfold stored_models. intros (m & [= -> ->] & _)%list_elem_of_fmap.
  reflexivity.
Qed.

Lemma stored_objects_keys (l : list (string * object)) :
  (stored_objects l).*1 = l.*1.
Proof.
  unfold stored_objects. rewrite <- list_fmap_compose.
  apply list_fmap_ext. by intros ? [??].
Qed.

Lemma stored_models_keys (l : list model) :
  (stored_models l).*1 = identity <$> l.
Proof. unfold stored_models. by rewrite <- list_fmap_compose. Qed.

Lemma model_entries_keys config : (model_entries config).*1 = model_ids config.
Proof. apply stored_models_keys. Qed.

Lemma merge_objects l m :
  objects m -> (forall key v, (key, v) ∈ l -> truthy v = true) ->
  objects (merge l m).2.
Proof.
  intros Hm Hl key v [H|H]%merge_lookup; [by eapply Hm | by eapply Hl].
Qed.

Lemma merge_keyed l m :
  keyed_by_identity m ->
  (forall key v, (key, v) ∈ l -> Waterline.identity_of v = Some key) ->
  keyed_by_identity (merge l m).2.
Proof.
  intros Hm Hl key v [H|H]%merge_lookup; [by eapply Hm | by eapply Hl].
Qed.

Section merged_facts.
Context (config : config_input) (c c' : Collector.t)
        (conns : gmap string jsval) (r : result unit).
Context (Hconns : Collector.connections c = Some conns).
Context (Hmerged : merged config c conns = (r, c')).

Lemma merged_fields :
  Collector.defaults c' = Collector.defaults c /\
  Collector.teardownOnStop c' = Collector.teardownOnStop c /\
  Collector.datastores c' = Collector.datastores c.
Proof.
  revert Hmerged. unfold merged. cbv zeta.
  destruct (merge (adapter_entries config) _) as [[?|] ?]; cbn [fst snd].
  { intros [= <- <-]. by destruct c. }
  destruct (merge (connection_entries config) _) as [[?|] ?]; cbn [fst snd].
  { intros [= <- <-]. by destruct c. }
  intros [= <- <-]. by destruct c.
Qed.

(** Each dictionary of the collector is what [merge] made of it, over
    some prefix of the configuration's entries. *)
Lemma merged_dictionaries :
  exists la ln lm,
    Collector.adapters c' = (merge la (Collector.adapters c)).2 /\
    Collector.connections c' = Some (merge ln conns).2 /\
    Collector.models c' = (merge lm (Collector.models c)).2 /\
    la ⊆ adapter_entries config /\ ln ⊆ connection_entries config /\
    lm ⊆ model_entries config.
Proof.
  revert Hmerged. unfold merged. cbv zeta.
  destruct (merge (adapter_entries config) _) as [[?|] ma] eqn:Ea;
    cbn [fst snd].
  { intros [= <- <-]. exists (adapter_entries config), [], [].
    rewrite Ea. destruct c; simpl in *. set_solver. }
  destruct (merge (connection_entries config) _) as [[?|] mn] eqn:En;
    cbn [fst snd].
  { intros [= <- <-].
  exists (adapter_entries config), (connection_entries config), [].
    rewrite Ea, En. destruct c; simpl in *. set_solver. }
  intros [= <- <-].
  exists (adapter_entries config), (connection_entries config),
  (model_entries config).
  rewrite Ea, En. destruct c; simpl in *. set_solver.
Qed.

Lemma merged_well_formed : well_formed c -> well_formed c'.
Proof.
  intros (Ha & (conns0 & Hc0 & Hn) & Hm).
  rewrite Hconns in Hc0. injection Hc0 as <-.
  destruct merged_dictionaries
    as (la & ln & lm & Hca & Hcn & Hcm & Hla & Hln & Hlm).
  unfold well_formed. rewrite Hca, Hcm.
  split; [|split].
  - apply merge_objects; [done|]. intros key v Hin.
    eapply stored_objects_elem. apply Hla, Hin.
  - eexists; split; [exact Hcn|]. apply merge_objects; [done|].
    intros key v Hin. eapply stored_objects_elem. apply Hln, Hin.
  - apply merge_keyed; [done|]. intros key v Hin.
    eapply stored_models_elem. apply Hlm, Hin.
Qed.

(** No entry with a truthy value is lost or changed. *)
Lemma merged_keeps :
  (forall key v, Collector.adapters c !! key = Some v -> truthy v = true ->
                 Collector.adapters c' !! key = Some v) /\
  (forall key v, conns !! key = Some v -> truthy v = true ->
     exists conns', Collector.connections c' = Some conns' /\
                    conns' !! key = Some v) /\
  (forall key v, Collector.models c !! key = Some v -> truthy v = true ->
                 Collector.models c' !! key = Some v).
Proof.
  destruct merged_dictionaries as (la & ln & lm & Hca & Hcn & Hcm & _).
  rewrite Hca, Hcn, Hcm.
  split; [|split]; intros key v Hk Hv.
  - by apply merge_keeps_truthy.
  - eexists; split; [done|]. by apply merge_keeps_truthy.
  - by apply merge_keeps_truthy.
Qed.

Lemma merged_keeps_ids key :
  is_Some (Collector.models c !! key) ->
  is_Some (Collector.models c' !! key).
Proof.
  destruct merged_dictionaries as (la & ln & lm & _ & _ & Hcm & _).
  rewrite Hcm. apply merge_keeps_keys.
Qed.

Lemma merged_ok_models :
  r = Ok tt ->
  (merge (model_entries config) (Collector.models c)).1 = None /\
  Collector.models c' =
    (merge (model_entries config) (Collector.models c)).2.
Proof.
  revert Hmerged. unfold merged. cbv zeta.
  destruct (merge (adapter_entries config) _) as [[?|] ma]; cbn [fst snd].
  { intros [= <- <-]. done. }
  destruct (merge (connection_entries config) _) as [[?|] mn]; cbn [fst snd].
  { intros [= <- <-]. done. }
  destruct (merge (model_entries config) _) as [[?|] mm]; cbn [fst snd outcome].
  { intros [= <- <-]. done. }
  intros [= <- <-] _. by destruct c.
Qed.
End merged_facts.

Lemma collected_fields options c r c' :
  collected options c = (r, c') ->
  Collector.adapters c' = Collector.adapters c /\
  Collector.connections c' = Collector.connections c /\
  Collector.datastores c' = Collector.datastores c /\
  Collector.models c' = Collector.models c.
Proof.
  unfold collected. cbv zeta.
  destruct (merge _ (Collector.defaults c)) as [[?|] md]; cbn [fst snd].
  { intros [= <- <-]. by destruct c. }
  destruct (Options.teardownOnStop options) as [b|].
  - destruct (strict_eq _ _); intros [= <- <-]; by destruct c.
  - intros [= <- <-]. by destruct c.
Qed.

Lemma Inv_set_collector st c c' :
  collector st = Some c ->
  Collector.adapters c' = Collector.adapters c ->
  Collector.connections c' = Collector.connections c ->
  Collector.models c' = Collector.models c ->
  Inv st -> Inv (set_collector (Some c') st).
Proof.
  intros Hc Ha Hn Hm. unfold Inv. rewrite Hc. cbn.
  intros (Hs & Hw & Hwf & Ht). unfold well_formed, tracked in *.
  rewrite Ha, Hn, Hm. done.
Qed.

Lemma Inv_dogwater this config st :
  Inv st -> setup st = true -> Inv (dogwater this config st).2.
Proof.
  intros HI Hs. unfold Inv in HI.
  destruct (collector st) as [c|] eqn:Hc; [|destruct HI; congruence].
  destruct HI as (_ & Hw & Hwf & Ht).
  pose proof Hwf as (_ & (conns & Hn & _) & _).
  rewrite (dogwater_eq _ _ _ _ _ Hc Hn).
  destruct (merged config c conns) as [r c'] eqn:Hm.
  pose proof (merged_well_formed _ _ _ _ _ Hn Hm Hwf) as Hwf'.
  assert (Ht' : tracked st c').
  { intros rl ids id Hr Hid.
    eapply merged_keeps_ids; [exact Hn|exact Hm|]. by eapply Ht. }
  destruct r as [[]|err]; unfold Inv; cbn; (split; [done|]);
    (split; [done|]); (split; [done|]).
  - intros rl ids id. cbn.
    destruct (decide (this = rl)) as [<-|Hne].
    + rewrite lookup_insert_eq. intros [= <-] [Hid|Hid]%elem_of_app.
      * destruct (realm_models st !! this) as [old|] eqn:Hold;
          [by eapply Ht' | by apply elem_of_nil in Hid].
      * destruct (merged_ok_models _ _ _ _ _ Hn Hm eq_refl) as [Hok ->].
        apply merge_stored; [done|]. by rewrite model_entries_keys.
    + rewrite lookup_insert_ne by done. apply Ht'.
  - exact Ht'.
Qed.

Lemma well_formed_empty : well_formed Collector.empty.
Proof.
  split; [|split].
  - intros key v. cbn. by rewrite lookup_empty.
  - exists ∅. split; [done|]. intros key v. by rewrite lookup_empty.
  - intros key v. cbn. by rewrite lookup_empty.
Qed.

Lemma Inv_installed st : Inv st -> setup st = false -> Inv (installed st).
Proof.
  unfold Inv. destruct (collector st) as [c|]; [intros []; congruence|].
  intros (_ & _ & Hrm) _. cbn.
  split; [done|]. split; [done|]. split; [apply well_formed_empty|].
  intros r ids id. cbn. rewrite Hrm, lookup_empty. done.
Qed.

Lemma Inv_register e server options st :
  Inv st -> Inv (register e server options st).2.
Proof.
  assert (Hset : forall st, Inv st -> setup st = true ->
                   Inv (register e server options st).2).
  { clear st. intros st HI Hs. pose proof HI as HI0. unfold Inv in HI0.
    destruct (collector st) as [c|] eqn:Hc; [|destruct HI0; congruence].
    rewrite (register_eq _ _ _ _ _ Hs Hc).
    destruct (collected options c) as [r c'] eqn:Hcol.
    destruct (collected_fields _ _ _ _ Hcol) as (Ha & Hn & _ & Hm).
    pose proof (Inv_set_collector _ _ _ Hc Ha Hn Hm HI) as HI'.
    destruct r as [[]|err]; [|exact HI'].
    destruct (registrationConfig e options) as [config|err]; [|exact HI'].
    apply Inv_dogwater; [exact HI'|exact Hs]. }
  intros HI. destruct (setup st) eqn:Hs; [by apply Hset|].
  rewrite register_fresh by done. apply Hset; [by apply Inv_installed|done].
Qed.

Lemma Inv_run_call e c st : Inv st -> Inv (run_call e c st).2.
Proof.
  intros HI. destruct c as [server options|this config]; cbn [run_call].
  - by apply Inv_register.
  - rewrite run_bind. cbn [get].
    destruct (setup st) eqn:Hs; [by apply Inv_dogwater | exact HI].
Qed.

Lemma Inv_init : Inv init.
Proof. done. Qed.

Lemma Inv_run e calls : forall st, Inv st -> Inv (run e calls st).
Proof.
  induction calls as [|c calls IH]; intros st HI; [exact HI|].
  apply IH, Inv_run_call, HI.
Qed.

Lemma Inv_reachable e calls : Inv (run e calls init).
Proof. apply Inv_run, Inv_init. Qed.

(** ** Duplicate registrations *)




(** ** Registrations with distinct keys *)

Lemma merge_app l1 : forall l2 m,
  (merge l1 m).1 = None -> merge (l1 ++ l2) m = merge l2 (merge l1 m).2.
Proof.
  induction l1 as [|[k v] l1 IH]; intros l2 m; simpl; [done|].
  destruct (truthy (js_get m k)); simpl; [done|]. apply IH.
Qed.

Lemma merge_app_None l1 : forall l2 m,
  (merge (l1 ++ l2) m).1 = None -> (merge l1 m).1 = None.
Proof.
  induction l1 as [|[k v] l1 IH]; intros l2 m; simpl; [done|].
  destruct (truthy (js_get m k)); simpl; [done|]. apply IH.
Qed.

Lemma merged_ok config c conns :
  (merge (adapter_entries config) (Collector.adapters c)).1 = None ->
  (merge (connection_entries config) conns).1 = None ->
  (merge (model_entries config) (Collector.models c)).1 = None ->
  merged config c conns =
  (Ok tt,
   Collector.set_models
     (merge (model_entries config) (Collector.models c)).2
     (Collector.set_connections
        (Some (merge (connection_entries config) conns).2)
        (Collector.set_adapters
           (merge (adapter_entries config) (Collector.adapters c)).2 c))).
Proof. unfold merged. cbv zeta. by intros -> -> ->. Qed.

Lemma merge_all_ok fragments : forall st c conns,
  collector st = Some c -> Collector.connections c = Some conns ->
  (merge (all_adapters fragments) (Collector.adapters c)).1 = None ->
  (merge (all_connections fragments) conns).1 = None ->
  (merge (all_models fragments) (Collector.models c)).1 = None ->
  (merge_all fragments st).1 = Ok tt /\
  exists c',
    collector (merge_all fragments st).2 = Some c' /\
    Collector.adapters c'
      = (merge (all_adapters fragments) (Collector.adapters c)).2 /\
    Collector.connections c'
      = Some (merge (all_connections fragments) conns).2 /\
    Collector.models c'
      = (merge (all_models fragments) (Collector.models c)).2.
Proof.
  induction fragments as [|[this config] rest IH];
    intros st c conns Hc Hn Ha Hcn Hm.
  - cbn. split; [done|]. exists c. by destruct c.
  - unfold all_adapters, all_connections, all_models in Ha, Hcn, Hm |- *.
    cbn [mbind list_bind snd] in Ha, Hcn, Hm |- *.
    pose proof (merge_app_None _ _ _ Ha) as Ha1.
    pose proof (merge_app_None _ _ _ Hcn) as Hcn1.
    pose proof (merge_app_None _ _ _ Hm) as Hm1.
    rewrite (merge_app _ _ _ Ha1) in Ha |- *.
    rewrite (merge_app _ _ _ Hcn1) in Hcn |- *.
    rewrite (merge_app _ _ _ Hm1) in Hm |- *.
    unfold merge_all. cbn [forEach]. rewrite run_bind.
    rewrite (dogwater_eq _ _ _ _ _ Hc Hn), (merged_ok _ _ _ Ha1 Hcn1 Hm1).
    set (n1 := (merge (connection_entries config) conns).2) in *.
    set (c1 := Collector.set_models _ _).
    exact (IH (track this (model_ids config) (set_collector (Some c1) st))
              c1 n1 eq_refl eq_refl Ha Hcn Hm).
Qed.

(** From a collector that has its [connections], a sequence of merges
    whose adapter names are pairwise distinct, not yet in the collector
    and not inherited names, and likewise the connection names and the
    model identities, succeeds as a whole, and each dictionary of the
    collector is then the union of the fragments' entries with what it
    held before: each key carries the definition its fragment gave. *)
Lemma disjoint_merges_union fragments st c conns :
  collector st = Some c -> Collector.connections c = Some conns ->
  NoDup (all_adapters fragments).*1 ->
  (forall key, key ∈ (all_adapters fragments).*1 ->
               Collector.adapters c !! key = None /\ inherited key = false) ->
  NoDup (all_connections fragments).*1 ->
  (forall key, key ∈ (all_connections fragments).*1 ->
               conns !! key = None /\ inherited key = false) ->
  NoDup (all_models fragments).*1 ->
  (forall key, key ∈ (all_models fragments).*1 ->
               Collector.models c !! key = None /\ inherited key = false) ->
  (merge_all fragments st).1 = Ok tt /\
  exists c',
    collector (merge_all fragments st).2 = Some c' /\
    Collector.adapters c'
      = list_to_map (all_adapters fragments) ∪ Collector.adapters c /\
    Collector.connections c'
      = Some (list_to_map (all_connections fragments) ∪ conns) /\
    Collector.models c'
      = list_to_map (all_models fragments) ∪ Collector.models c.
Proof.
  intros Hc Hn Da Fa Dn Fn Dm Fm.
  pose proof (merge_fresh _ _ Da Fa) as Ea.
  pose proof (merge_fresh _ _ Dn Fn) as En.
  pose proof (merge_fresh _ _ Dm Fm) as Em.
  destruct (merge_all_ok fragments st c conns Hc Hn) as (Hok & c' & H).
  - by rewrite Ea.
  - by rewrite En.
  - by rewrite Em.
  - rewrite Ea, En, Em in H. split; [done|]. by exists c'.
Qed.

(** ** A bare array of models *)

(** C7. Calling [dogwater] with a bare array of model definitions gives
    the same result and leaves the same state, collector and realm record
    included, as calling it with the object that holds the array under
    [models] and has no adapters and no connections, be they absent or
    empty. *)
Theorem array_same_as_models_object this (ms : list model) st :
  dogwater this (ConfigArray ms) st
  = dogwater this (ConfigObject (Config.mk None None (Some ms))) st /\
  dogwater this (ConfigArray ms) st
  = dogwater this (ConfigObject (Config.mk (Some []) (Some []) (Some ms))) st.
Proof. split; reflexivity. Qed.

(** ** The realms' records *)

Lemma record_track this ids st r :
  record r (track this ids st)
  = record r st ++ (if decide (this = r) then ids else []).
Proof.
  unfold record, track. cbn.
  destruct (decide (this = r)) as [<-|Hne].
  - by rewrite lookup_insert_eq.
  - rewrite lookup_insert_ne by done. by rewrite app_nil_r.
Qed.

Lemma record_dogwater this config st r :
  Inv st -> setup st = true ->
  record r (dogwater this config st).2
  = record r st
    ++ match (dogwater this config st).1 with
       | Ok _ => if decide (this = r) then model_ids config else []
       | Throw _ => []
       end.
Proof.
  intros HI Hs. unfold Inv in HI.
  destruct (collector st) as [c|] eqn:Hc; [|destruct HI; congruence].
  destruct HI as (_ & _ & (_ & (conns & Hn & _) & _) & _).
  rewrite (dogwater_eq _ _ _ _ _ Hc Hn).
  destruct (merged config c conns) as [[[]|err] c']; cbn [fst snd].
  - by rewrite record_track.
  - by rewrite app_nil_r.
Qed.

Lemma record_run_call e c st r :
  Inv st ->
  record r (run_call e c st).2
  = record r st ++ added e r c (run_call e c st).1.
Proof.
  intros HI. destruct c as [server options|this config];
    cbn [run_call added call_realm call_models].
  - assert (Hset : forall st, Inv st -> setup st = true ->
      record r (register e server options st).2
      = record r st
        ++ match (register e server options st).1 with
           | Ok _ =>
               if decide (Root = r)
               then match registrationConfig e options with
                    | Ok config => model_ids (ConfigObject config)
                    | Throw _ => []
                    end
               else []
           | Throw _ => []
           end).
    { clear st HI. intros st HI Hs. pose proof HI as HI0. unfold Inv in HI0.
      destruct (collector st) as [c|] eqn:Hc; [|destruct HI0; congruence].
      rewrite (register_eq _ _ _ _ _ Hs Hc).
      destruct (collected options c) as [res c'] eqn:Hcol.
      destruct (collected_fields _ _ _ _ Hcol) as (Ha & Hn & _ & Hm).
      pose proof (Inv_set_collector _ _ _ Hc Ha Hn Hm HI) as HI'.
      destruct res as [[]|err]; [|by rewrite app_nil_r].
      destruct (registrationConfig e options) as [config|err];
        [|by rewrite app_nil_r].
      by rewrite (record_dogwater _ _ _ _ HI' Hs). }
    destruct (setup st) eqn:Hs; [by apply Hset|].
    rewrite register_fresh by done.
    by rewrite (Hset _ (Inv_installed _ HI Hs) eq_refl).
  - rewrite run_bind. cbn [get].
    destruct (setup st) eqn:Hs; [by apply record_dogwater|].
    by rewrite app_nil_r.
Qed.

Lemma record_run e calls r : forall st,
  Inv st -> record r (run e calls st) = record r st ++ registered e r calls st.
Proof.
  induction calls as [|c calls IH]; intros st HI; cbn [registered].
  - by rewrite app_nil_r.
  - change (run e (c :: calls) st) with (run e calls (run_call e c st).2).
    rewrite IH by (by apply Inv_run_call).
    by rewrite record_run_call, app_assoc.
Qed.

Lemma run_app e calls more st :
  run e (calls ++ more) st = run e more (run e calls st).
Proof. apply foldl_app. Qed.

Lemma records_in_collector e calls r id :
  id ∈ record r (run e calls init) ->
  id ∈ dom (collector_models (run e calls init)).
Proof.
  pose proof (Inv_reachable e calls) as HI.
  intros Hid. unfold Inv, collector_models, record in *.
  destruct (collector (run e calls init)) as [c|].
  - destruct HI as (_ & _ & _ & Ht). apply elem_of_dom. cbn.
    destruct (realm_models (run e calls init) !! r) as [ids|] eqn:Hr;
      [by eapply Ht | by apply elem_of_nil in Hid].
  - destruct HI as (_ & _ & Hrm). rewrite Hrm, lookup_empty in Hid.
    by apply elem_of_nil in Hid.
Qed.

(** C9. In every state reached by a run, failed calls included, each
    identity in a realm's record is a key of the collector's models; and
    whatever calls follow, the record keeps what it held, in the same
    order, at its front. *)
Theorem records_grow_within_collector e calls r :
  (forall id, id ∈ record r (run e calls init) ->
              id ∈ dom (collector_models (run e calls init))) /\
  (forall more,
      record r (run e calls init)
        `prefix_of` record r (run e (calls ++ more) init)).
Proof.
  pose proof (Inv_reachable e calls) as HI. split.
  - apply records_in_collector.
  - intros more. rewrite run_app, (record_run e more r _ HI).
    by apply prefix_app_r.
Qed.

(** ** Initialization and the accessor *)









Lemma collections_uninitialized this all st w :
  waterline st = Some w -> Waterline.collections w = None ->
  collections this all st = (Ok ∅, st).
Proof.
  intros Hw Hcs. unfold collections, the_waterline.
  rewrite !run_bind. cbn [get]. rewrite Hw. cbn [defined ret]. by rewrite Hcs.
Qed.

Lemma collections_initialized this all st w cs :
  waterline st = Some w -> Waterline.collections w = Some cs ->
  collections this all st =
  (Ok (if truthy all then cs
       else foldl (fun (collections : gmap string jsval) id =>
                     <[id := js_get cs id]> collections) ∅ (record this st)),
   st).
Proof.
  intros Hw Hcs. unfold collections, the_waterline.
  rewrite !run_bind. cbn [get]. rewrite Hw. cbn [defined ret]. rewrite Hcs.
  by destruct (truthy all).
Qed.



(** ** The teardown flag *)

Lemma flag_dogwater this config st :
  Inv st -> setup st = true -> flag (dogwater this config st).2 = flag st.
Proof.
  intros HI Hs. unfold Inv in HI. unfold flag.
  destruct (collector st) as [c|] eqn:Hc; [|destruct HI; congruence].
  destruct HI as (_ & _ & (_ & (conns & Hn & _) & _) & _).
  rewrite (dogwater_eq _ _ _ _ _ Hc Hn).
  destruct (merged config c conns) as [r c'] eqn:Hm.
  destruct (merged_fields _ _ _ _ _ Hn Hm) as (_ & Hf & _).
  destruct r as [[]|err]; cbn; by rewrite Hf.
Qed.

(** The flag after the defaults and the flag have been collected. *)
Lemma collected_flag options c r c' :
  collected options c = (r, c') ->
  match r with
  | Ok _ =>
      Collector.teardownOnStop c' =
        match Options.teardownOnStop options with
        | Some b => JBool b
        | None => Collector.teardownOnStop c
        end /\
      (is_Some (Options.teardownOnStop options) ->
       Collector.teardownOnStop c = JNull)
  | Throw err =>
      Collector.teardownOnStop c' = Collector.teardownOnStop c /\
      ((exists key, err = DefaultAlreadySet key /\
                    key ∈ (default [] (Options.defaults options)).*1) \/
       (err = TeardownOnStopOnce /\
        is_Some (Options.teardownOnStop options) /\
        Collector.teardownOnStop c <> JNull))
  end.
Proof.
  unfold collected. cbv zeta.
  destruct (merge _ (Collector.defaults c)) as [[key|] md] eqn:Em;
    cbn [fst snd].
  { intros [= <- <-]. split; [by destruct c|]. left. exists key.
    split; [done|]. apply (merge_refused _ (Collector.defaults c)).
    by rewrite Em. }
  destruct (Options.teardownOnStop options) as [b|].
  - destruct (strict_eq (Collector.teardownOnStop c) JNull) eqn:Es;
      intros [= <- <-].
    + split; [by destruct c|]. intros _.
      destruct (Collector.teardownOnStop c); cbn in Es; congruence.
    + split; [by destruct c|]. right. split; [done|]. split; [by eexists|].
      intros Hnull. rewrite Hnull in Es. cbn in Es. congruence.
  - intros [= <- <-]. split; [by destruct c|]. by intros [? [=]].
Qed.

(** How [register] goes in a reachable state: the collector [c] it works
    on is the state's or, on the first registration, the empty one. *)
Lemma register_run e server options st :
  Inv st ->
  exists st0 c,
    Inv st0 /\ setup st0 = true /\ collector st0 = Some c /\
    record Root st0 = record Root st /\
    (flag st = Some (Collector.teardownOnStop c) \/
     flag st = None /\ Collector.teardownOnStop c = JNull) /\
    register e server options st =
    match collected options c with
    | (Throw err, c') => (Throw err, set_collector (Some c') st0)
    | (Ok _, c') =>
        match registrationConfig e options with
        | Throw err => (Throw err, set_collector (Some c') st0)
        | Ok config =>
            dogwater Root (ConfigObject config)
                     (set_collector (Some c') st0)
        end
    end.
Proof.
  intros HI. destruct (setup st) eqn:Hs.
  - pose proof HI as HI0. unfold Inv in HI0.
    destruct (collector st) as [c|] eqn:Hc; [|destruct HI0; congruence].
    exists st, c. split_and!; try done.
    + left. unfold flag. by rewrite Hc.
    + by apply register_eq.
  - exists (installed st), Collector.empty.
    pose proof HI as HI0. unfold Inv in HI0.
    destruct (collector st) as [c|] eqn:Hc; [destruct HI0; congruence|].
    split_and!; try done.
    + by apply Inv_installed.
    + right. unfold flag. by rewrite Hc.
    + rewrite register_fresh by done. by apply register_eq.
Qed.


(** A flag that has been set stays as it is. *)
Lemma flag_kept e c st v :
  Inv st -> flag st = Some v -> v <> JNull ->
  flag (run_call e c st).2 = Some v.
Proof.
  intros HI Hv Hnn. destruct c as [server options|this config];
    cbn [run_call].
  - destruct (register_run e server options st HI)
      as (st0 & c & HI0 & Hs0 & Hc0 & _ & Hfl & ->).
    destruct Hfl as [Hfl|[Hfl _]]; [|congruence].
    rewrite Hv in Hfl. injection Hfl as ->.
    destruct (collected options c) as [r c'] eqn:Hcol.
    pose proof (collected_flag _ _ _ _ Hcol) as Hflag.
    destruct (collected_fields _ _ _ _ Hcol) as (Ha & Hn & _ & Hm).
    pose proof (Inv_set_collector _ _ _ Hc0 Ha Hn Hm HI0) as HI'.
    assert (Hf' : Collector.teardownOnStop c' = Collector.teardownOnStop c).
    { destruct r as [[]|err]; [|by destruct Hflag].
      destruct Hflag as [-> Hnull].
      destruct (Options.teardownOnStop options) as [b|]; [|done].
      destruct Hnn. apply Hnull. by eexists. }
    assert (Hset : flag (set_collector (Some c') st0)
                   = Some (Collector.teardownOnStop c)).
    { unfold flag. cbn. by rewrite Hf'. }
    destruct r as [[]|err]; [|done].
    destruct (registrationConfig e options) as [config|err]; [|done].
    by rewrite flag_dogwater.
  - rewrite run_bind. cbn [get].
    destruct (setup st) eqn:Hs; [|done]. by rewrite flag_dogwater.
Qed.

Lemma flag_kept_run e calls : forall st v,
  Inv st -> flag st = Some v -> v <> JNull -> flag (run e calls st) = Some v.
Proof.
  induction calls as [|c calls IH]; intros st v HI Hv Hnn; [done|].
  apply IH; [by apply Inv_run_call|by apply flag_kept|done].
Qed.

(** While no call supplies the option the flag stays [null]. *)
Lemma flag_unset e c st :
  Inv st -> call_teardownOnStop c = None ->
  (forall v, flag st = Some v -> v = JNull) ->
  forall v, flag (run_call e c st).2 = Some v -> v = JNull.
Proof.
  intros HI Hnone Hun. destruct c as [server options|this config];
    cbn [run_call call_teardownOnStop] in *.
  - destruct (register_run e server options st HI)
      as (st0 & c & HI0 & Hs0 & Hc0 & _ & Hfl & ->).
    assert (Hnull : Collector.teardownOnStop c = JNull).
    { destruct Hfl as [Hfl|[_ Hfl]]; [by apply Hun|done]. }
    destruct (collected options c) as [r c'] eqn:Hcol.
    pose proof (collected_flag _ _ _ _ Hcol) as Hflag.
    destruct (collected_fields _ _ _ _ Hcol) as (Ha & Hn & _ & Hm).
    pose proof (Inv_set_collector _ _ _ Hc0 Ha Hn Hm HI0) as HI'.
    assert (Hf' : Collector.teardownOnStop c' = JNull).
    { destruct r as [[]|err]; destruct Hflag as [-> _]; [|done].
      by rewrite Hnone. }
    assert (Hset : flag (set_collector (Some c') st0) = Some JNull).
    { unfold flag. cbn. by rewrite Hf'. }
    destruct r as [[]|err]; cbn [snd]; [|intros v; congruence].
    destruct (registrationConfig e options) as [config|err]; cbn [snd];
      [|intros v; congruence].
    rewrite flag_dogwater by done. intros v; congruence.
  - rewrite run_bind. cbn [get].
    destruct (setup st) eqn:Hs; [|done]. by rewrite flag_dogwater.
Qed.

Lemma flag_unset_run e calls : forall st,
  Inv st -> Forall (fun c => call_teardownOnStop c = None) calls ->
  (forall v, flag st = Some v -> v = JNull) ->
  forall v, flag (run e calls st) = Some v -> v = JNull.
Proof.
  induction calls as [|c calls IH]; intros st HI Hall Hun; [done|].
  apply Forall_cons in Hall as [Hc Hall].
  apply IH; [by apply Inv_run_call|done|by apply flag_unset].
Qed.



(** C8. While Waterline has produced no collections, either variant of
    the accessor, for any realm, returns the empty mapping and changes
    nothing. *)
Theorem collections_before_initialization this all st w :
  waterline st = Some w -> Waterline.collections w = None ->
  collections this all st = (Ok ∅, st).
Proof. apply collections_uninitialized. Qed.

(** That is the case in every state a run of registrations reaches. *)
Lemma reachable_uninitialized e calls :
  setup (run e calls init) = true ->
  waterline (run e calls init) = Some Waterline.new.
Proof.
  intros Hs. pose proof (Inv_reachable e calls) as HI. unfold Inv in HI.
  destruct (collector (run e calls init)); destruct HI as (? & ? & ?);
    [done|congruence].
Qed.

(** ** Setting [teardownOnStop] twice *)

Lemma flag_register_supplied e server options st b :
  Inv st -> Options.teardownOnStop options = Some b ->
  (forall key,
     (register e server options st).1 <> Throw (DefaultAlreadySet key)) ->
  exists v, flag (register e server options st).2 = Some v /\ v <> JNull.
Proof.
  intros HI Hb.
  destruct (register_run e server options st HI)
    as (st0 & c & HI0 & Hs0 & Hc0 & _ & _ & ->).
  destruct (collected options c) as [r c'] eqn:Hcol.
  pose proof (collected_flag _ _ _ _ Hcol) as Hflag.
  destruct (collected_fields _ _ _ _ Hcol) as (Ha & Hn & _ & Hm).
  pose proof (Inv_set_collector _ _ _ Hc0 Ha Hn Hm HI0) as HI'.
  destruct r as [[]|err]; cbn [fst snd].
  - destruct Hflag as [Hf _]. rewrite Hb in Hf. intros _.
    exists (JBool b). split; [|done].
    destruct (registrationConfig e options) as [config|err].
    + rewrite flag_dogwater by done. unfold flag. cbn. by rewrite Hf.
    + unfold flag. cbn. by rewrite Hf.
  - destruct Hflag as [Hf [(key & -> & _)|(-> & _ & Hnn)]]; intros Hne.
    + by destruct (Hne key).
    + exists (Collector.teardownOnStop c). split; [|done].
      unfold flag. cbn. by rewrite Hf.
Qed.

Lemma register_flag_set e server options st v b :
  Inv st -> flag st = Some v -> v <> JNull ->
  Options.teardownOnStop options = Some b ->
  (register e server options st).1 = Throw TeardownOnStopOnce \/
  exists key,
    key ∈ (default [] (Options.defaults options)).*1 /\
    (register e server options st).1 = Throw (DefaultAlreadySet key).
Proof.
  intros HI Hv Hnn Hb.
  destruct (register_run e server options st HI)
    as (st0 & c & HI0 & Hs0 & Hc0 & _ & Hfl & ->).
  destruct Hfl as [Hfl|[Hfl _]]; [|congruence].
  rewrite Hv in Hfl. injection Hfl as ->.
  destruct (collected options c) as [r c'] eqn:Hcol.
  pose proof (collected_flag _ _ _ _ Hcol) as Hflag.
  destruct r as [[]|err]; cbn [fst].
  - destruct Hflag as [_ Hnull]. destruct Hnn. apply Hnull. by eexists.
  - destruct Hflag as [_ [(key & -> & Hkey)|(-> & _)]]; [right|left]; eauto.
Qed.

(** C5, amended.  Take two registrations that both supply
    [teardownOnStop], with any calls in between, the first of which did
    not fail on its defaults.  The second fails, whether or not its value
    equals the first: with the error that the option can only be specified
    once, or, when one of its own defaults is refused first, with the
    already-set error of that default. *)
Theorem teardownOnStop_only_once
  e calls server1 options1 between server2 options2 b1 b2 :
  Options.teardownOnStop options1 = Some b1 ->
  Options.teardownOnStop options2 = Some b2 ->
  (forall key, (register e server1 options1 (run e calls init)).1
               <> Throw (DefaultAlreadySet key)) ->
  (register e server2 options2
     (run e between (register e server1 options1 (run e calls init)).2)).1
    = Throw TeardownOnStopOnce \/
  exists key,
    key ∈ (default [] (Options.defaults options2)).*1 /\
    (register e server2 options2
       (run e between (register e server1 options1 (run e calls init)).2)).1
      = Throw (DefaultAlreadySet key).
Proof.
  intros H1 H2 Hfirst.
  pose proof (Inv_register e server1 options1 _ (Inv_reachable e calls)) as HI.
  destruct (flag_register_supplied e server1 options1 _ b1
              (Inv_reachable e calls) H1 Hfirst) as (v & Hv & Hnn).
  eapply register_flag_set; [by apply Inv_run| |exact Hnn|exact H2].
  by apply flag_kept_run.
Qed.

(** C5, counterexample.  Two registrations supply the same defaults and
    the same [teardownOnStop].  The first returns; the second throws the
    already-set error of the default, which is checked before the flag,
    and not the error of [teardownOnStop].  And when a registration that
    supplies the flag fails on its defaults, the flag has not been stored:
    a later registration that supplies it returns. *)
Lemma teardownOnStop_twice_not_refused :
  ((register (plain_env "0.12.2") (Plugin "a")
      (with_defaults [("migrate", JStr "safe")] (Some true)) init).1
     = Ok tt /\
   (register (plain_env "0.12.2") (Plugin "b")
      (with_defaults [("migrate", JStr "safe")] (Some true))
      (register (plain_env "0.12.2") (Plugin "a")
         (with_defaults [("migrate", JStr "safe")] (Some true)) init).2).1
     = Throw (DefaultAlreadySet "migrate")) /\
  ((register (plain_env "0.12.2") (Plugin "b")
      (with_defaults [("migrate", JStr "alter")] (Some true))
      (register (plain_env "0.12.2") (Plugin "a")
         (with_defaults [("migrate", JStr "safe")] None) init).2).1
     = Throw (DefaultAlreadySet "migrate") /\
   (register (plain_env "0.12.2") (Plugin "c")
      (with_defaults [] (Some true))
      (register (plain_env "0.12.2") (Plugin "b")
         (with_defaults [("migrate", JStr "alter")] (Some true))
         (register (plain_env "0.12.2") (Plugin "a")
            (with_defaults [("migrate", JStr "safe")] None) init).2).2).1
     = Ok tt).
Proof. repeat split; reflexivity. Qed.

(** ** A default set twice *)

(** C6, the failing input.  A first registration sets the default
    [autoPK] to [false]; a second one sets it to [true].  The stored value
    reads falsy, so the assertion lets the second through and the default
    is replaced. *)
Theorem falsy_default_set_twice :
  (register (plain_env "0.12.2") (Plugin "a")
     (with_defaults [("autoPK", JBool false)] None) init).1 = Ok tt /\
  (register (plain_env "0.12.2") (Plugin "b")
     (with_defaults [("autoPK", JBool true)] None)
     (register (plain_env "0.12.2") (Plugin "a")
        (with_defaults [("autoPK", JBool false)] None) init).2)
  = (Ok tt,
     {| setup := true;
        collector :=
          Some (Collector.set_defaults {["autoPK" := JBool true]}
                  Collector.empty);
        realm_models := {[Root := []]};
        waterline := Some Waterline.new |}).
Proof. split; reflexivity. Qed.

(** The pattern behind it: a key whose stored value reads falsy is taken
    for a free one. *)
Lemma merge_replaces_falsy m key v v' :
  m !! key = Some v -> truthy v = false ->
  merge [(key, v')] m = (None, <[key := v']> m).
Proof. intros Hk Hv. cbn. by rewrite (js_get_Some _ _ _ Hk), Hv. Qed.

(** ** A name that every object inherits *)

(** C2, the failing input.  On a collector just created, where nothing
    is registered, a merge of the one model [constructor] is refused as
    already registered: [collector.models] is a plain object, and under
    that name it inherits a method, which reads truthy.  The same holds of
    an adapter or a connection named so. *)
Theorem inherited_name_refused :
  collector (register (plain_env "0.12.2") (Plugin "dogwater") no_options
               init).2
    = Some Collector.empty /\
  dogwater (Plugin "a")
    (ConfigArray [{| identity := "constructor"; attributes := [] |}])
    (register (plain_env "0.12.2") (Plugin "dogwater") no_options init).2
  = (Throw (AlreadyRegistered Model "constructor"),
     (register (plain_env "0.12.2") (Plugin "dogwater") no_options init).2) /\
  (dogwater (Plugin "a")
     (ConfigObject (Config.mk (Some [("toString", [])]) None None))
     (register (plain_env "0.12.2") (Plugin "dogwater") no_options init).2).1
  = Throw (AlreadyRegistered Adapter "toString").
Proof. repeat split; reflexivity. Qed.

(** ** The version test at Waterline 0.13 *)

(** C10, the failing input.  With Waterline 0.13.0 the version splits
    into strings, the test [MAJOR === 0] compares a string with a number
    and is false, and the renaming never happens: after the first
    registration [connections] holds the registered connection and
    [datastores] does not exist, a second registration of the same
    connection meets the duplicate check, and initialization hands the
    connections to Waterline. *)
Theorem version_test_never_renames :
  WaterlineVersion (plain_env "0.13.0")
    = {| MAJOR := JStr "0"; MINOR := JStr "13"; PATCH := JStr "0" |} /\
  renames_connections (WaterlineVersion (plain_env "0.13.0")) = false /\
  register (plain_env "0.13.0") (Plugin "a")
    (Options.mk None (Some memory_db) None None None) init
  = (Ok tt,
     {| setup := true;
        collector :=
          Some (Collector.set_connections
                  (Some {["db" := JObj [("adapter", JStr "memory")]]})
                  Collector.empty);
        realm_models := {[Root := []]};
        waterline := Some Waterline.new |}) /\
  (dogwater (Plugin "b") (ConfigObject (Config.mk None (Some memory_db) None))
     (register (plain_env "0.13.0") (Plugin "a")
        (Options.mk None (Some memory_db) None None None) init).2).1
  = Throw (AlreadyRegistered Connection "db") /\
  (Waterline.options <$>
     waterline
       (initialize
          (register (plain_env "0.13.0") (Plugin "a")
             (Options.mk None (Some memory_db) None None None) init).2).2)
  = Some (Some {| Waterline.adapters := ∅;
                  Waterline.connections :=
                    Some {["db" := JObj [("adapter", JStr "memory")]]};
                  Waterline.defaults := ∅ |}).
Proof. repeat split; reflexivity. Qed.

(** Had the renaming happened, a configuration with a connection would
    indeed meet a [TypeError] and not the duplicate check. *)
Lemma undefined_connections_type_error this config st c :
  collector st = Some c -> Collector.connections c = None ->
  (merge (adapter_entries config) (Collector.adapters c)).1 = None ->
  connection_entries config <> [] ->
  (dogwater this config st).1 = Throw TypeError.
Proof.
  intros Hc Hn Ha Hne. unfold dogwater. cbv zeta. fold (normalize config).
  rewrite run_bind, (adapters_loop _ _ _ Hc).
  fold (adapter_entries config). rewrite Ha. cbn [outcome].
  rewrite run_bind.
  erewrite connections_loop_undefined;
    [done|reflexivity|by destruct c|].
  intros Hnil. apply Hne. unfold connection_entries, stored_objects.
  by rewrite Hnil.
Qed.

(** ** Stopping *)

(** Stopping after a registration without the flag, with [false] and
    with [true]: the number of teardowns Waterline has seen. *)
Lemma stop_examples :
  Waterline.teardowns <$>
    waterline (stop (run (plain_env "0.12.2")
                       [Register (Plugin "a") (with_defaults [] None)]
                       init)).2 = Some 1%nat /\
  Waterline.teardowns <$>
    waterline (stop (run (plain_env "0.12.2")
                       [Register (Plugin "a") (with_defaults [] (Some false))]
                       init)).2 = Some 0%nat /\
  Waterline.teardowns <$>
    waterline (stop (run (plain_env "0.12.2")
                       [Register (Plugin "a") (with_defaults [] (Some true))]
                       init)).2 = Some 1%nat.
Proof. repeat split; reflexivity. Qed.

(** ** A merge that fails part-way *)


(** ** The parts of a version *)

Lemma split_dotless s : dotless s = true -> split s = [s].
Proof.
  induction s as [|c s IH]; [done|]. cbn.
  destruct (Ascii.eqb c "."); cbn; [done|]. intros H. by rewrite IH.
Qed.

Lemma split_dot a rest :
  dotless a = true -> split (a +:+ String "." rest) = a :: split rest.
Proof.
  induction a as [|c a IH]; [done|].
  change (String c a +:+ String "." rest)
    with (String c (a +:+ String "." rest)).
  cbn [dotless split].
  destruct (Ascii.eqb c "."); cbn [negb andb]; [done|].
  intros H. by rewrite IH.
Qed.

(** X1. For a version made of three parts separated by dots,
    [semverSplit] returns the three parts in order, each as a string;
    whatever follows a third dot is ignored. *)
Theorem semverSplit_three_parts a b c rest :
  dotless a = true -> dotless b = true -> dotless c = true ->
  semverSplit (a +:+ "." +:+ b +:+ "." +:+ c)
    = {| MAJOR := JStr a; MINOR := JStr b; PATCH := JStr c |} /\
  semverSplit (a +:+ "." +:+ b +:+ "." +:+ c +:+ "." +:+ rest)
    = {| MAJOR := JStr a; MINOR := JStr b; PATCH := JStr c |}.
Proof.
  intros Ha Hb Hc. unfold semverSplit.
  change (String.append ".") with (String ".").
  rewrite !split_dot by done. rewrite split_dotless by done.
  split; reflexivity.
Qed.

(** X2. For a version with fewer than three parts the missing ones are
    [undefined]: a version without a dot gives [MAJOR] only, the whole
    string, and a version with one dot gives [MAJOR] and [MINOR]. *)
Theorem semverSplit_missing_parts a b :
  dotless a = true -> dotless b = true ->
  semverSplit a
    = {| MAJOR := JStr a; MINOR := JUndefined; PATCH := JUndefined |} /\
  semverSplit (a +:+ "." +:+ b)
    = {| MAJOR := JStr a; MINOR := JStr b; PATCH := JUndefined |}.
Proof.
  intros Ha Hb. unfold semverSplit.
  change (String.append ".") with (String ".").
  rewrite !split_dot by done. rewrite !split_dotless by done.
  split; reflexivity.
Qed.

(** ** [registrationConfig] *)

Lemma resolve_adapters_Ok e entries : forall got,
  resolve_adapters e entries = Ok got -> Forall2 (resolved e) entries got.
Proof.
  induction entries as [|[name a] entries IH]; intros got; cbn.
  - intros [= <-]. constructor.
  - destruct a as [def|path]; cbn.
    + destruct (resolve_adapters e entries) as [others|err]; cbn; [|done].
      intros [= <-]. constructor; [done|]. by apply IH.
    + unfold require. destruct (require_adapter e path) as [def|] eqn:Hr;
        cbn; [|done].
      destruct (resolve_adapters e entries) as [others|err]; cbn; [|done].
      intros [= <-]. constructor; [done|]. by apply IH.
Qed.

Lemma resolve_adapters_Throw e entries : forall err,
  resolve_adapters e entries = Throw err ->
  exists before name path after,
    entries = before ++ (name, AdapterModule path) :: after /\
    err = CannotFindModule path /\
    require_adapter e path = None /\
    Forall (resolvable e) before.
Proof.
  induction entries as [|[name a] entries IH]; intros err; cbn; [done|].
  destruct a as [def|path]; cbn.
  - destruct (resolve_adapters e entries) as [others|err'] eqn:Hrest; cbn;
      [done|].
    intros [= <-].
    destruct (IH _ eq_refl) as (before & n & p & after & -> & -> & Hp & Hb).
    exists ((name, AdapterObject def) :: before), n, p, after.
    split_and!; try done. by constructor.
  - unfold require. destruct (require_adapter e path) as [def|] eqn:Hr; cbn.
    + destruct (resolve_adapters e entries) as [others|err'] eqn:Hrest; cbn;
        [done|].
      intros [= <-].
      destruct (IH _ eq_refl) as (before & n & p & after & -> & -> & Hp & Hb).
      exists ((name, AdapterModule path) :: before), n, p, after.
      split_and!; try done. constructor; [|done].
      unfold resolvable. cbn. rewrite Hr. by eexists.
    + intros [= <-]. exists [], name, path, entries. by split_and!.
Qed.

(** X3. When [registrationConfig] returns, the configuration has the
    connections of the options; its models are the array that was given
    or what [require] returned for the module that was named; and its
    adapters are those of the options under the same names and in the
    same order, a definition as it was given and a module name replaced
    by what [require] returned for it. *)
Theorem registrationConfig_resolves e options config :
  registrationConfig e options = Ok config ->
  Config.connections config = Options.connections options /\
  match Options.models options with
  | None => Config.models config = None
  | Some (ModelsArray models) => Config.models config = Some models
  | Some (ModelsModule path) =>
      is_Some (require_models e path) /\
      Config.models config = require_models e path
  end /\
  match Options.adapters options, Config.adapters config with
  | None, None => True
  | Some given, Some got => Forall2 (resolved e) given got
  | _, _ => False
  end.
Proof.
  unfold registrationConfig.
  destruct (Options.models options) as [[models|path]|]; cbn.
  - destruct (Options.adapters options) as [given|]; cbn.
    + destruct (resolve_adapters e given) as [got|err] eqn:Hg; cbn; [|done].
      intros [= <-]. cbn. split_and!; try done.
      by apply resolve_adapters_Ok.
    + by intros [= <-].
  - unfold require at 1.
    destruct (require_models e path) as [models|]; cbn; [|done].
    destruct (Options.adapters options) as [given|]; cbn.
    + destruct (resolve_adapters e given) as [got|err] eqn:Hg; cbn; [|done].
      intros [= <-]. cbn. split_and!; try done.
      by apply resolve_adapters_Ok.
    + by intros [= <-].
  - destruct (Options.adapters options) as [given|]; cbn.
    + destruct (resolve_adapters e given) as [got|err] eqn:Hg; cbn; [|done].
      intros [= <-]. cbn. split_and!; try done.
      by apply resolve_adapters_Ok.
    + by intros [= <-].
Qed.

(** The adapters of the options fail to resolve at the first module
    that is not found. *)
Lemma adapters_Throw e (adapters : option (list (string * adapter_option)))
  (err : error) :
  match adapters with
  | Some entries => got ← resolve_adapters e entries; Ok (Some got)
  | None => Ok None
  end = Throw err ->
  exists before name path after,
    adapters = Some (before ++ (name, AdapterModule path) :: after) /\
    err = CannotFindModule path /\
    require_adapter e path = None /\
    Forall (resolvable e) before.
Proof.
  destruct adapters as [given|]; cbn; [|done].
  destruct (resolve_adapters e given) as [got|err'] eqn:Hg; cbn; [done|].
  intros [= <-].
  destruct (resolve_adapters_Throw _ _ _ Hg)
    as (before & name & path & after & -> & -> & Hp & Hb).
  by exists before, name, path, after.
Qed.

(** [registrationConfig] throws nothing but what [require] throws. *)
Lemma registrationConfig_errors e options err :
  registrationConfig e options = Throw err ->
  exists path, err = CannotFindModule path.
Proof.
  unfold registrationConfig.
  destruct (Options.models options) as [[models|path]|]; cbn.
  - destruct (_ : result (option (list (string * object)))) eqn:Ha; cbn;
      [done|]. intros [= <-].
    destruct (adapters_Throw _ _ _ Ha) as (_ & _ & path & _ & _ & -> & _).
    by exists path.
  - unfold require at 1.
    destruct (require_models e path) as [models|]; cbn.
    + destruct (_ : result (option (list (string * object)))) eqn:Ha; cbn;
        [done|]. intros [= <-].
      destruct (adapters_Throw _ _ _ Ha) as (_ & _ & p & _ & _ & -> & _).
      by exists p.
    + intros [= <-]. by exists path.
  - destruct (_ : result (option (list (string * object)))) eqn:Ha; cbn;
      [done|]. intros [= <-].
    destruct (adapters_Throw _ _ _ Ha) as (_ & _ & path & _ & _ & -> & _).
    by exists path.
Qed.


Lemma resolve_adapters_objects e (adapters : list (string * object)) :
  resolve_adapters e (plain_adapters adapters) = Ok adapters.
Proof.
  unfold plain_adapters.
  induction adapters as [|[name def] adapters IH]; [done|].
  cbn. rewrite IH. reflexivity.
Qed.

(** X5. For options that name no module, [registrationConfig] returns,
    in every environment, the adapters, connections and models as they
    were given, without the defaults and [teardownOnStop]. *)
Theorem registrationConfig_plain_options e
  (adapters : option (list (string * object))) connections
  (models : option (list model)) defaults teardownOnStop :
  registrationConfig e
    (Options.mk (plain_adapters <$> adapters) connections
       (ModelsArray <$> models) defaults teardownOnStop)
  = Ok (Config.mk adapters connections models).
Proof.
  unfold registrationConfig. cbn.
  destruct models as [models|], adapters as [adapters|]; cbn;
    by rewrite ?resolve_adapters_objects.
Qed.

(** ** A module name for the models *)

(** X6. Registering with the name of a module for the models does the
    same, in every state, as registering with the array of models that
    the module exports. *)
Theorem module_name_same_as_exports
  e server adapters connections defaults teardownOnStop path ms st :
  require_models e path = Some ms ->
  register e server
    (Options.mk adapters connections (Some (ModelsModule path)) defaults
       teardownOnStop) st
  = register e server
      (Options.mk adapters connections (Some (ModelsArray ms)) defaults
         teardownOnStop) st.
Proof.
  intros Hreq.
  assert (Hrc :
    registrationConfig e
      (Options.mk adapters connections (Some (ModelsModule path)) defaults
         teardownOnStop)
    = registrationConfig e
        (Options.mk adapters connections (Some (ModelsArray ms)) defaults
           teardownOnStop)).
  { unfold registrationConfig. cbn. unfold require at 1. by rewrite Hreq. }
  unfold register. cbn [Options.defaults Options.teardownOnStop].
  by rewrite Hrc.
Qed.

(** ** Loops that ran to their end *)

Lemma js_get_falsy (m : gmap string jsval) key :
  objects m -> truthy (js_get m key) = false ->
  m !! key = None /\ inherited key = false.
Proof.
  intros Hm. unfold js_get. destruct (m !! key) as [v|] eqn:Hk.
  - intros Hv. rewrite (Hm _ _ Hk) in Hv. done.
  - destruct (inherited key); [|done].
    by destruct (String.eqb key "__proto__").
Qed.

Lemma merge_returned (l : list (string * jsval)) : forall m,
  (forall key v, (key, v) ∈ l -> truthy v = true) ->
  (merge l m).1 = None ->
  NoDup l.*1 /\ forall key, key ∈ l.*1 -> truthy (js_get m key) = false.
Proof.
  induction l as [|[k x] l IH]; intros m Hl; simpl.
  - intros _. split; [constructor|].
    intros key Hin. by apply elem_of_nil in Hin.
  - destruct (truthy (js_get m k)) eqn:E; simpl; [done|].
    intros Hok.
    destruct (IH (<[k := x]> m)) as [Hnd Hfresh]; [|done|].
    { intros key v Hin. apply (Hl key v). by right. }
    assert (Hx : truthy x = true) by (apply (Hl k x); left).
    assert (Hk : k ∉ l.*1).
    { intros Hin. apply Hfresh in Hin. unfold js_get in Hin.
      rewrite lookup_insert_eq in Hin. congruence. }
    split; [by constructor|].
    intros key [->|Hin]%elem_of_cons; [done|].
    pose proof (Hfresh key Hin) as Hf.
    rewrite js_get_insert_ne in Hf; [done|]. intros ->. done.
Qed.

(** With truthy values on both sides, a loop that ran to its end met
    only new keys, all distinct, and left the union. *)
Lemma merge_returned_union (l : list (string * jsval)) m :
  (forall key v, (key, v) ∈ l -> truthy v = true) -> objects m ->
  (merge l m).1 = None ->
  NoDup l.*1 /\
  (forall key, key ∈ l.*1 -> m !! key = None) /\
  (merge l m).2 = list_to_map l ∪ m.
Proof.
  intros Hl Hm Hok. destruct (merge_returned l m Hl Hok) as [Hnd Hfresh].
  assert (Hnew : forall key, key ∈ l.*1 ->
                   m !! key = None /\ inherited key = false).
  { intros key Hin. apply js_get_falsy; [done|]. by apply Hfresh. }
  split; [done|]. split; [intros key Hin; by apply Hnew|].
  by rewrite merge_fresh.
Qed.

Lemma entries_truthy k config key v :
  (key, v) ∈ entries_of k config -> truthy v = true.
Proof.
  destruct k; cbn [entries_of].
  - apply stored_objects_elem.
  - apply stored_objects_elem.
  - intros Hin. eapply identity_of_truthy, stored_models_elem, Hin.
Qed.

Lemma entries_keys k config : (entries_of k config).*1 = keys_of k config.
Proof.
  destruct k; cbn [entries_of keys_of]; [done|done|].
  apply model_entries_keys.
Qed.

(** The four ways the three loops can go. *)
Lemma merged_cases config c conns :
  (exists key,
     (merge (adapter_entries config) (Collector.adapters c)).1 = Some key /\
     merged config c conns
     = (Throw (AlreadyRegistered Adapter key),
        Collector.set_adapters
          (merge (adapter_entries config) (Collector.adapters c)).2 c)) \/
  ((merge (adapter_entries config) (Collector.adapters c)).1 = None /\
   exists key,
     (merge (connection_entries config) conns).1 = Some key /\
     merged config c conns
     = (Throw (AlreadyRegistered Connection key),
        Collector.set_connections
          (Some (merge (connection_entries config) conns).2)
          (Collector.set_adapters
             (merge (adapter_entries config) (Collector.adapters c)).2 c))) \/
  ((merge (adapter_entries config) (Collector.adapters c)).1 = None /\
   (merge (connection_entries config) conns).1 = None /\
   exists key,
     (merge (model_entries config) (Collector.models c)).1 = Some key /\
     merged config c conns
     = (Throw (AlreadyRegistered Model key),
        Collector.set_models
          (merge (model_entries config) (Collector.models c)).2
          (Collector.set_connections
             (Some (merge (connection_entries config) conns).2)
             (Collector.set_adapters
                (merge (adapter_entries config) (Collector.adapters c)).2
                c)))) \/
  ((merge (adapter_entries config) (Collector.adapters c)).1 = None /\
   (merge (connection_entries config) conns).1 = None /\
   (merge (model_entries config) (Collector.models c)).1 = None /\
   merged config c conns
   = (Ok tt,
      Collector.set_models
        (merge (model_entries config) (Collector.models c)).2
        (Collector.set_connections
           (Some (merge (connection_entries config) conns).2)
           (Collector.set_adapters
              (merge (adapter_entries config) (Collector.adapters c)).2
              c)))).
Proof.
  unfold merged. cbv zeta.
  destruct (merge (adapter_entries config) _) as [[ka|] ma]; cbn [fst snd].
  { left. by exists ka. }
  destruct (merge (connection_entries config) _) as [[kn|] mn]; cbn [fst snd].
  { right; left. split; [done|]. by exists kn. }
  destruct (merge (model_entries config) _) as [[km|] mm];
    cbn [fst snd outcome].
  { right; right; left. split; [done|]. split; [done|]. by exists km. }
  right; right; right. done.
Qed.

(** What [dogwater] does in a state that the invariant holds of. *)
Lemma dogwater_run this config st c :
  Inv st -> collector st = Some c ->
  exists conns,
    Collector.connections c = Some conns /\ well_formed c /\
    setup st = true /\
    dogwater this config st =
    (match merged config c conns with
     | (Ok _, c') =>
         (Ok tt, track this (model_ids config) (set_collector (Some c') st))
     | (Throw e, c') => (Throw e, set_collector (Some c') st)
     end).
Proof.
  intros HI Hc. unfold Inv in HI. rewrite Hc in HI.
  destruct HI as (Hs & _ & Hwf & _).
  pose proof Hwf as (_ & (conns & Hn & _) & _).
  exists conns. split_and!; try done. by apply dogwater_eq.
Qed.

(** The first registration works on the empty collector, any other on
    the one that is there. *)
Lemma register_cases e server options st :
  Inv st ->
  exists st0 c,
    Inv st0 /\ setup st0 = true /\ collector st0 = Some c /\
    realm_models st0 = realm_models st /\
    (st0 = st \/ collector st = None /\ c = Collector.empty) /\
    register e server options st =
    match collected options c with
    | (Throw err, c') => (Throw err, set_collector (Some c') st0)
    | (Ok _, c') =>
        match registrationConfig e options with
        | Throw err => (Throw err, set_collector (Some c') st0)
        | Ok config =>
            dogwater Root (ConfigObject config)
                     (set_collector (Some c') st0)
        end
    end.
Proof.
  intros HI. destruct (setup st) eqn:Hs.
  - pose proof HI as HI0. unfold Inv in HI0.
    destruct (collector st) as [c|] eqn:Hc; [|destruct HI0; congruence].
    exists st, c. split_and!; try done; [by left|]. by apply register_eq.
  - exists (installed st), Collector.empty.
    pose proof HI as HI0. unfold Inv in HI0.
    destruct (collector st) as [c|] eqn:Hc; [destruct HI0; congruence|].
    split_and!; try done.
    + by apply Inv_installed.
    + by right.
    + rewrite register_fresh by done. by apply register_eq.
Qed.

(** ** What the collector keeps *)

Lemma grows_refl c : grows c c.
Proof. by split_and!. Qed.

Lemma grows_trans c1 c2 c3 : grows c1 c2 -> grows c2 c3 -> grows c1 c3.
Proof.
  intros (H1 & D1 & F1 & S1) (H2 & D2 & F2 & S2). split_and!.
  - intros k key def Hk. by apply H2, H1.
  - intros key v Hk Hv. apply D2; [|done]. by apply D1.
  - intros Hf. rewrite F2; rewrite F1; done.
  - congruence.
Qed.

Lemma merged_grows config c conns r c' :
  well_formed c -> Collector.connections c = Some conns ->
  merged config c conns = (r, c') -> grows c c'.
Proof.
  intros Hwf Hn Hm. pose proof Hwf as (Ha & (conns0 & Hn0 & Hno) & Hk).
  rewrite Hn in Hn0. injection Hn0 as <-.
  destruct (merged_keeps _ _ _ _ _ Hn Hm) as (Ka & Kn & Km).
  destruct (merged_fields _ _ _ _ _ Hn Hm) as (Hd & Hf & Hs).
  split_and!.
  - intros [] key def Hdef; cbn [dictionary] in *.
    + apply Ka; [done|]. by eapply Ha.
    + rewrite Hn in Hdef. cbn in Hdef.
      destruct (Kn key def Hdef) as (conns' & -> & Hd');
        [by eapply Hno|done].
    + apply Km; [done|]. eapply keyed_objects; done.
  - intros key v Hk' Hv. by rewrite Hd.
  - done.
  - done.
Qed.

Lemma collected_grows options c r c' :
  collected options c = (r, c') -> grows c c'.
Proof.
  intros Hcol. destruct (collected_fields _ _ _ _ Hcol) as (Ha & Hn & Hs & Hm).
  split_and!.
  - intros [] key def; cbn [dictionary]; by rewrite ?Ha, ?Hn, ?Hm.
  - revert Hcol. unfold collected. cbv zeta.
    intros Hcol key v Hk Hv.
    pose proof (merge_keeps_truthy (default [] (Options.defaults options))
                  _ _ _ Hk Hv) as Hkept.
    destruct (merge _ (Collector.defaults c)) as [[?|] md]; cbn [fst snd] in *.
    { injection Hcol as <- <-. by destruct c. }
    destruct (Options.teardownOnStop options) as [b|].
    + destruct (strict_eq _ _); injection Hcol as <- <-; by destruct c.
    + injection Hcol as <- <-. by destruct c.
  - intros Hf. pose proof (collected_flag _ _ _ _ Hcol) as Hflag.
    destruct r as [[]|err]; [|by destruct Hflag].
    destruct Hflag as [-> Hnull].
    destruct (Options.teardownOnStop options) as [b|]; [|done].
    destruct Hf. apply Hnull. by eexists.
  - done.
Qed.

Lemma dogwater_grows this config st c :
  Inv st -> collector st = Some c ->
  exists c', collector (dogwater this config st).2 = Some c' /\ grows c c'.
Proof.
  intros HI Hc.
  destruct (dogwater_run this config st c HI Hc) as (conns & Hn & Hwf & _ & ->).
  destruct (merged config c conns) as [r c'] eqn:Hm.
  exists c'. split; [by destruct r as [[]|]|]. by eapply merged_grows.
Qed.

Lemma register_grows e server options st c :
  Inv st -> collector st = Some c ->
  exists c', collector (register e server options st).2 = Some c' /\ grows c c'.
Proof.
  intros HI Hc. pose proof HI as HI0. unfold Inv in HI0. rewrite Hc in HI0.
  destruct HI0 as (Hs & _). rewrite (register_eq _ _ _ _ _ Hs Hc).
  destruct (collected options c) as [r c1] eqn:Hcol.
  pose proof (collected_grows _ _ _ _ Hcol) as Hg.
  destruct (collected_fields _ _ _ _ Hcol) as (Ha & Hn & _ & Hm).
  pose proof (Inv_set_collector _ _ _ Hc Ha Hn Hm HI) as HI'.
  destruct r as [[]|err]; [|by exists c1].
  destruct (registrationConfig e options) as [config|err]; [|by exists c1].
  destruct (dogwater_grows Root (ConfigObject config) _ c1 HI' eq_refl)
    as (c2 & Hc2 & Hg2).
  exists c2. split; [done|]. by eapply grows_trans.
Qed.

Lemma run_call_grows e call st c :
  Inv st -> collector st = Some c ->
  exists c', collector (run_call e call st).2 = Some c' /\ grows c c'.
Proof.
  intros HI Hc. destruct call as [server options|this config]; cbn [run_call].
  - by apply register_grows.
  - rewrite run_bind. cbn [get].
    destruct (setup st); [by apply dogwater_grows|].
    exists c. split; [done|apply grows_refl].
Qed.

Lemma run_grows e calls : forall st c,
  Inv st -> collector st = Some c ->
  exists c', collector (run e calls st) = Some c' /\ grows c c'.
Proof.
  induction calls as [|call calls IH]; intros st c HI Hc.
  - exists c. split; [done|apply grows_refl].
  - destruct (run_call_grows e call st c HI Hc) as (c1 & Hc1 & Hg1).
    destruct (IH _ c1 (Inv_run_call e call st HI) Hc1) as (c2 & Hc2 & Hg2).
    exists c2. split; [done|]. by eapply grows_trans.
Qed.

(** X7. Nothing that the collector holds is removed or replaced by
    later calls, failed ones included: each adapter, connection and
    model entry keeps its definition, each default whose value reads
    truthy keeps it, and a flag that has been set keeps its value. *)
Theorem entries_never_removed e calls more c :
  collector (run e calls init) = Some c ->
  exists c',
    collector (run e (calls ++ more) init) = Some c' /\
    (forall k key def,
        dictionary k c !! key = Some def ->
        dictionary k c' !! key = Some def) /\
    (forall key v,
        Collector.defaults c !! key = Some v -> truthy v = true ->
        Collector.defaults c' !! key = Some v) /\
    (Collector.teardownOnStop c <> JNull ->
     Collector.teardownOnStop c' = Collector.teardownOnStop c).
Proof.
  intros Hc. rewrite run_app.
  destruct (run_grows e more _ c (Inv_reachable e calls) Hc)
    as (c' & Hc' & Hk & Hd & Hf & _).
  by exists c'.
Qed.

Lemma no_datastores_run_call e call st :
  Inv st ->
  (forall c, collector st = Some c -> Collector.datastores c = None) ->
  forall c, collector (run_call e call st).2 = Some c ->
            Collector.datastores c = None.
Proof.
  intros HI Hno c'. destruct (collector st) as [c|] eqn:Hc.
  - destruct (run_call_grows e call st c HI Hc)
      as (c1 & -> & _ & _ & _ & Hs).
    intros [= <-]. rewrite Hs. by apply Hno.
  - destruct call as [server options|this config]; cbn [run_call].
    + pose proof HI as HI0. unfold Inv in HI0. rewrite Hc in HI0.
      destruct HI0 as (Hs & _).
      rewrite register_fresh by done.
      destruct (register_grows e server options (installed st)
                  Collector.empty (Inv_installed _ HI Hs) eq_refl)
        as (c1 & -> & _ & _ & _ & Hd).
      intros [= <-]. by rewrite Hd.
    + rewrite run_bind. cbn [get].
      pose proof HI as HI0. unfold Inv in HI0. rewrite Hc in HI0.
      destruct HI0 as (-> & _). cbn. congruence.
Qed.

Lemma no_datastores_run e calls : forall st,
  Inv st ->
  (forall c, collector st = Some c -> Collector.datastores c = None) ->
  forall c, collector (run e calls st) = Some c ->
            Collector.datastores c = None.
Proof.
  induction calls as [|call calls IH]; intros st HI Hno; [done|].
  apply IH; [by apply Inv_run_call|by apply no_datastores_run_call].
Qed.

(** X8. Whatever the version of Waterline, in every state a run reaches
    the collector has no [datastores] property and its [connections] is
    a dictionary: the renaming behind the version test never takes
    place. *)
Theorem connections_never_renamed e calls c :
  collector (run e calls init) = Some c ->
  Collector.datastores c = None /\ is_Some (Collector.connections c).
Proof.
  intros Hc. split.
  - by apply (no_datastores_run e calls init Inv_init).
  - pose proof (Inv_reachable e calls) as HI. unfold Inv in HI.
    rewrite Hc in HI. destruct HI as (_ & _ & (_ & (conns & -> & _) & _) & _).
    by eexists.
Qed.

(** X9. In every state a run reaches, each model definition of the
    collector sits under its own identity. *)
Theorem models_stored_under_identity e calls c key def :
  collector (run e calls init) = Some c ->
  Collector.models c !! key = Some def ->
  Waterline.identity_of def = Some key.
Proof.
  intros Hc Hdef. pose proof (Inv_reachable e calls) as HI. unfold Inv in HI.
  rewrite Hc in HI. destruct HI as (_ & _ & (_ & _ & Hk) & _).
  by apply Hk.
Qed.

(** ** A merge that returns *)

Lemma merged_returned config c conns c' :
  well_formed c -> Collector.connections c = Some conns ->
  merged config c conns = (Ok tt, c') ->
  forall k,
    NoDup (keys_of k config) /\
    (forall key, key ∈ keys_of k config -> dictionary k c !! key = None) /\
    dictionary k c' = list_to_map (entries_of k config) ∪ dictionary k c.
Proof.
  intros (Ha & (conns0 & Hn0 & Hno) & Hk) Hn Hm.
  rewrite Hn in Hn0. injection Hn0 as <-.
  destruct (merged_cases config c conns)
    as [(key & _ & E)|[(_ & key & _ & E)|[(_ & _ & key & _ & E)
        |(Ea & En & Em & E)]]];
    rewrite E in Hm; try discriminate.
  injection Hm as <-.
  intros k. rewrite <- entries_keys.
  destruct k; cbn [dictionary entries_of].
  - destruct (merge_returned_union (adapter_entries config)
                (Collector.adapters c)) as (H1 & H2 & H3);
      [apply (entries_truthy Adapter)|done|done|].
    split_and!; [done|done|]. by destruct c.
  - rewrite Hn. cbn.
    destruct (merge_returned_union (connection_entries config) conns)
      as (H1 & H2 & H3); [apply (entries_truthy Connection)|done|done|].
    split_and!; [done|done|]. by destruct c.
  - destruct (merge_returned_union (model_entries config)
                (Collector.models c)) as (H1 & H2 & H3);
      [apply (entries_truthy Model)|by apply keyed_objects|done|].
    split_and!; [done|done|]. by destruct c.
Qed.

(** X10. When a merge returns then, for each of the three kinds, the
    keys of the configuration are pairwise distinct, none of them was
    in the collector before, and the collector's dictionary is
    afterwards the union of the configuration's entries with what it
    held; the defaults and the flag are untouched. *)
Theorem returned_merge_adds_exactly e calls this config c :
  collector (run e calls init) = Some c ->
  (dogwater this config (run e calls init)).1 = Ok tt ->
  exists c',
    collector (dogwater this config (run e calls init)).2 = Some c' /\
    (forall k,
       NoDup (keys_of k config) /\
       (forall key, key ∈ keys_of k config -> dictionary k c !! key = None) /\
       dictionary k c' = list_to_map (entries_of k config) ∪ dictionary k c) /\
    Collector.defaults c' = Collector.defaults c /\
    Collector.teardownOnStop c' = Collector.teardownOnStop c.
Proof.
  intros Hc.
  destruct (dogwater_run this config _ c (Inv_reachable e calls) Hc)
    as (conns & Hn & Hwf & _ & ->).
  destruct (merged config c conns) as [[[]|err] c'] eqn:Hm; cbn [fst snd];
    [intros _|done].
  exists c'. split; [done|].
  destruct (merged_fields _ _ _ _ _ Hn Hm) as (Hd & Hf & _).
  split; [|done]. by eapply merged_returned.
Qed.

(** X11. A merge that returns appends the identities of its models, in
    their order, to the record of the realm that called it and to no
    other record; a merge that throws changes no record. *)
Theorem merge_records_for_caller e calls this config r :
  setup (run e calls init) = true ->
  record r (dogwater this config (run e calls init)).2
  = record r (run e calls init)
    ++ match (dogwater this config (run e calls init)).1 with
       | Ok _ => if decide (this = r) then model_ids config else []
       | Throw _ => []
       end.
Proof.
  intros Hs. apply record_dogwater; [apply Inv_reachable|done].
Qed.

(** ** A merge that is refused *)

Lemma merge_returned_stored (l : list (string * jsval)) m key v :
  (forall key v, (key, v) ∈ l -> truthy v = true) -> objects m ->
  (merge l m).1 = None -> (key, v) ∈ l -> (merge l m).2 !! key = Some v.
Proof.
  intros Hl Hm Hok Hin.
  destruct (merge_returned_union l m Hl Hm Hok) as (Hnd & _ & ->).
  apply lookup_union_Some_l. by apply elem_of_list_to_map_1.
Qed.

(** X12. A refused merge keeps what the loops before the failure have
    stored, and the loops after it have not run.  Refused at an adapter:
    connections and models are as before.  Refused at a connection:
    every adapter of the configuration is in the collector, the models
    are as before.  Refused at a model: every adapter and every
    connection of the configuration is in the collector. *)
Theorem refused_merge_keeps_what_it_stored e calls this config c k key :
  collector (run e calls init) = Some c ->
  (dogwater this config (run e calls init)).1
    = Throw (AlreadyRegistered k key) ->
  exists c',
    collector (dogwater this config (run e calls init)).2 = Some c' /\
    match k with
    | Adapter =>
        Collector.connections c' = Collector.connections c /\
        Collector.models c' = Collector.models c
    | Connection =>
        (forall name def, (name, def) ∈ entries_of Adapter config ->
                          dictionary Adapter c' !! name = Some def) /\
        Collector.models c' = Collector.models c
    | Model =>
        (forall name def, (name, def) ∈ entries_of Adapter config ->
                          dictionary Adapter c' !! name = Some def) /\
        (forall name def, (name, def) ∈ entries_of Connection config ->
                          dictionary Connection c' !! name = Some def)
    end.
Proof.
  intros Hc.
  destruct (dogwater_run this config _ c (Inv_reachable e calls) Hc)
    as (conns & Hn & Hwf & _ & ->).
  destruct Hwf as (Ha & (conns0 & Hn0 & Hno) & Hk).
  rewrite Hn in Hn0. injection Hn0 as <-.
  destruct (merged_cases config c conns)
    as [(key' & _ & ->)|[(Ea & key' & _ & ->)|[(Ea & En & key' & _ & ->)
        |(_ & _ & _ & ->)]]]; cbn [fst snd]; [| | |done].
  - intros [= <- <-]. eexists. split; [done|]. by destruct c.
  - intros [= <- <-]. eexists. split; [done|]. split; [|by destruct c].
    intros name def Hin. cbn [dictionary].
    destruct c; cbn in *. by apply merge_returned_stored;
      [apply (entries_truthy Adapter)|..].
  - intros [= <- <-]. eexists. split; [done|]. split.
    + intros name def Hin. cbn [dictionary].
      destruct c; cbn in *. by apply merge_returned_stored;
        [apply (entries_truthy Adapter)|..].
    + intros name def Hin. cbn [dictionary].
      destruct c; cbn in *. by apply merge_returned_stored;
        [apply (entries_truthy Connection)|..].
Qed.

(** X13. A bare array of models in which an identity occurs twice is
    refused with the already-registered error of one of its identities,
    whatever the collector holds. *)
Theorem repeated_identity_refused e calls this (ms : list model) :
  setup (run e calls init) = true ->
  ~ NoDup (identity <$> ms) ->
  exists id,
    id ∈ identity <$> ms /\
    (dogwater this (ConfigArray ms) (run e calls init)).1
      = Throw (AlreadyRegistered Model id).
Proof.
  intros Hs Hdup. pose proof (Inv_reachable e calls) as HI.
  pose proof HI as HI0. unfold Inv in HI0.
  destruct (collector (run e calls init)) as [c|] eqn:Hc;
    [|destruct HI0; congruence].
  destruct (dogwater_run this (ConfigArray ms) _ c HI Hc)
    as (conns & Hn & Hwf & _ & ->).
  destruct (merged_cases (ConfigArray ms) c conns)
    as [(key & E & _)|[(_ & key & E & _)|[(_ & _ & key & E & ->)
        |(_ & _ & _ & E)]]]; [done|done| |].
  - exists key. split; [|done].
    apply merge_refused in E as [E _].
    by rewrite model_entries_keys in E.
  - destruct Hdup.
    destruct (merged_returned (ConfigArray ms) c conns _ Hwf Hn E Model)
      as (Hnd & _). exact Hnd.
Qed.

(** ** A default that is set *)

(** X14. A registration that supplies a default for a key whose stored
    value reads truthy throws the already-set error of one of its
    default keys; the stored value, the adapters, connections and
    models, the flag and the realms' records are as before. *)
Theorem truthy_default_set_twice_refused
  e calls server options c key v :
  collector (run e calls init) = Some c ->
  Collector.defaults c !! key = Some v -> truthy v = true ->
  key ∈ (default [] (Options.defaults options)).*1 ->
  exists refused c',
    (register e server options (run e calls init)).1
      = Throw (DefaultAlreadySet refused) /\
    refused ∈ (default [] (Options.defaults options)).*1 /\
    collector (register e server options (run e calls init)).2 = Some c' /\
    Collector.defaults c' !! key = Some v /\
    Collector.adapters c' = Collector.adapters c /\
    Collector.connections c' = Collector.connections c /\
    Collector.models c' = Collector.models c /\
    Collector.teardownOnStop c' = Collector.teardownOnStop c /\
    realm_models (register e server options (run e calls init)).2
      = realm_models (run e calls init).
Proof.
  intros Hc Hk Hv Hin. pose proof (Inv_reachable e calls) as HI.
  unfold Inv in HI. rewrite Hc in HI. destruct HI as (Hs & _).
  rewrite (register_eq _ _ _ _ _ Hs Hc).
  destruct (merge_taken (default [] (Options.defaults options))
              (Collector.defaults c) key Hin) as [refused Hr].
  { by rewrite (js_get_Some _ _ _ Hk). }
  pose proof (merge_refused _ _ _ Hr) as [Hrin _].
  pose proof (merge_keeps_truthy (default [] (Options.defaults options))
                _ _ _ Hk Hv) as Hkept.
  unfold collected. cbv zeta. rewrite Hr. cbn [fst snd].
  exists refused. eexists. split_and!; try done; by destruct c.
Qed.



(** ** Registrations and the root realm *)

(** X16. The models given through the plugin options are recorded under
    the root realm, whatever server registers the plugin: a registration
    that returns appends their identities to the root's record, and the
    record of every other realm, that of the registering plugin
    included, stays as it was; a registration that throws changes no
    record. *)
Theorem registration_records_under_root e calls server options r :
  record r (register e server options (run e calls init)).2
  = record r (run e calls init)
    ++ match (register e server options (run e calls init)).1,
             registrationConfig e options with
       | Ok _, Ok config =>
           if decide (Root = r) then model_ids (ConfigObject config) else []
       | _, _ => []
       end.
Proof.
  pose proof (record_run_call e (Register server options) _ r
                (Inv_reachable e calls)) as H.
  cbn [run_call added call_realm call_models] in H. rewrite H.
  f_equal. unfold added. cbn [call_realm call_models].
  destruct (register e server options (run e calls init)).1; [|done].
  destruct (registrationConfig e options); by destruct (decide (Root = r)).
Qed.

(** X17. After any run, registering the plugin without options returns;
    the collector is then the one that was there, or the empty one on
    the first registration, and no realm's record has changed. *)
Theorem registration_without_options e calls server :
  (register e server no_options (run e calls init)).1 = Ok tt /\
  collector (register e server no_options (run e calls init)).2
    = Some (default Collector.empty (collector (run e calls init))) /\
  forall r,
    record r (register e server no_options (run e calls init)).2
    = record r (run e calls init).
Proof.
  destruct (register_cases e server no_options _ (Inv_reachable e calls))
    as (st0 & c & HI0 & Hs0 & Hc0 & Hrm & Hst & ->).
  assert (Hcol : collected no_options c = (Ok tt, c)) by (by destruct c).
  assert (Hrc : registrationConfig e no_options
                 = Ok (Config.mk None None None)) by reflexivity.
  rewrite Hcol, Hrc. cbv beta iota.
  assert (Hd : dogwater Root (ConfigObject (Config.mk None None None))
                 (set_collector (Some c) st0)
               = (Ok tt, track Root [] (set_collector (Some c) st0)))
    by reflexivity.
  rewrite Hd. cbn [fst snd]. split; [done|]. split.
  - destruct Hst as [->|[-> ->]]; cbn; [by rewrite Hc0|done].
  - intros r. rewrite record_track. unfold record. cbn.
    rewrite Hrm. destruct (decide (Root = r)); by rewrite app_nil_r.
Qed.

(** ** Defaults and a flag that are not set *)

Lemma register_working e server options st :
  Inv st ->
  exists st0,
    Inv st0 /\ setup st0 = true /\
    collector st0 = Some (working_collector st) /\
    register e server options st =
    match collected options (working_collector st) with
    | (Throw err, c') => (Throw err, set_collector (Some c') st0)
    | (Ok _, c') =>
        match registrationConfig e options with
        | Throw err => (Throw err, set_collector (Some c') st0)
        | Ok config =>
            dogwater Root (ConfigObject config)
                     (set_collector (Some c') st0)
        end
    end.
Proof.
  intros HI.
  destruct (register_cases e server options st HI)
    as (st0 & c & HI0 & Hs0 & Hc0 & _ & Hst & E).
  exists st0. unfold working_collector.
  destruct Hst as [->|[-> ->]]; [rewrite Hc0|]; by split_and!.
Qed.

(** [dogwater] throws nothing but the already-registered error in a state
    that the invariant holds of. *)
Lemma dogwater_errors this config st err :
  Inv st -> setup st = true ->
  (dogwater this config st).1 = Throw err ->
  exists k key, err = AlreadyRegistered k key.
Proof.
  intros HI Hs. pose proof HI as HI0. unfold Inv in HI0.
  destruct (collector st) as [c|] eqn:Hc; [|destruct HI0; congruence].
  destruct (dogwater_run this config st c HI Hc) as (conns & Hn & _ & _ & ->).
  destruct (merged_cases config c conns)
    as [(key & _ & ->)|[(_ & key & _ & ->)|[(_ & _ & key & _ & ->)
        |(_ & _ & _ & ->)]]]; cbn [fst snd]; intros [= <-]; eauto.
Qed.

(** X18. As long as no earlier call has supplied [teardownOnStop], a
    registration never throws the error that the option can only be
    specified once. *)
Theorem first_teardownOnStop_accepted e calls server options :
  Forall (fun c => call_teardownOnStop c = None) calls ->
  (register e server options (run e calls init)).1 <> Throw TeardownOnStopOnce.
Proof.
  intros Hnone. pose proof (Inv_reachable e calls) as HI.
  assert (Hnull : Collector.teardownOnStop
                    (working_collector (run e calls init)) = JNull).
  { unfold working_collector.
    destruct (collector (run e calls init)) as [c|] eqn:Hc; [|done].
    apply (flag_unset_run e calls init Inv_init Hnone); [done|].
    unfold flag. by rewrite Hc. }
  destruct (register_working e server options _ HI)
    as (st0 & HI0 & Hs0 & Hc0 & ->).
  destruct (collected options _) as [r c1] eqn:Hcol.
  pose proof (collected_flag _ _ _ _ Hcol) as Hflag.
  destruct (collected_fields _ _ _ _ Hcol) as (Ha & Hn & _ & Hm).
  pose proof (Inv_set_collector _ _ _ Hc0 Ha Hn Hm HI0) as HI1.
  destruct r as [[]|err]; cbn [fst].
  - destruct (registrationConfig e options) as [config|err] eqn:Hrc;
      cbn [fst].
    + intros Herr.
      destruct (dogwater_errors _ _ _ _ HI1 Hs0 Herr) as (k & key & [=]).
    + intros [= ->].
      by destruct (registrationConfig_errors _ _ _ Hrc) as [path [=]].
  - destruct Hflag as [_ [(key & -> & _)|(-> & _ & Hnn)]]; [done|].
    by rewrite Hnull in Hnn.
Qed.

(** X19. When the defaults of a registration have distinct keys that
    are not yet in the collector and are no inherited names, the
    registration does not fail on its defaults and, whatever else
    happens in it, the defaults of the collector are afterwards the
    union of those given with those it held. *)
Theorem fresh_defaults_all_stored e calls server options :
  NoDup (default [] (Options.defaults options)).*1 ->
  (forall key,
      key ∈ (default [] (Options.defaults options)).*1 ->
      Collector.defaults (working_collector (run e calls init)) !! key = None /\
      inherited key = false) ->
  (forall key, (register e server options (run e calls init)).1
               <> Throw (DefaultAlreadySet key)) /\
  exists c',
    collector (register e server options (run e calls init)).2 = Some c' /\
    Collector.defaults c'
    = list_to_map (default [] (Options.defaults options))
        ∪ Collector.defaults (working_collector (run e calls init)).
Proof.
  intros Hnd Hfresh. pose proof (Inv_reachable e calls) as HI.
  destruct (register_working e server options _ HI)
    as (st0 & HI0 & Hs0 & Hc0 & ->).
  set (c := working_collector (run e calls init)) in *.
  pose proof (merge_fresh _ _ Hnd Hfresh) as Em.
  assert (Hcol : exists r c1,
            collected options c = (r, c1) /\
            (forall key, r <> Throw (DefaultAlreadySet key)) /\
            Collector.defaults c1
            = list_to_map (default [] (Options.defaults options))
                ∪ Collector.defaults c).
  { unfold collected. cbv zeta. rewrite Em. cbn [fst snd].
    destruct (Options.teardownOnStop options) as [b|].
    - destruct (strict_eq _ _); eexists _, _; (split; [reflexivity|]);
        (split; [done|]); by destruct c.
    - eexists _, _. split; [reflexivity|]. split; [done|]. by destruct c. }
  destruct Hcol as (r & c1 & Hcol & Hr & Hd). rewrite Hcol.
  destruct (collected_fields _ _ _ _ Hcol) as (Ha & Hn & _ & Hm).
  pose proof (Inv_set_collector _ _ _ Hc0 Ha Hn Hm HI0) as HI1.
  destruct r as [[]|err]; cbn [fst snd].
  - destruct (registrationConfig e options) as [config|err] eqn:Hrc;
      cbn [fst snd].
    + destruct (dogwater_run Root (ConfigObject config) _ c1 HI1 eq_refl)
        as (conns & Hn1 & _ & _ & E).
      split.
      * intros key Herr.
        destruct (dogwater_errors _ _ _ _ HI1 Hs0 Herr) as (k & key' & [=]).
      * rewrite E. destruct (merged _ c1 conns) as [r2 c2] eqn:Hm2.
        destruct (merged_fields _ _ _ _ _ Hn1 Hm2) as (Hd2 & _ & _).
        exists c2. split; [by destruct r2 as [[]|]|]. by rewrite Hd2.
    + split; [|by exists c1].
      intros key [= ->].
      by destruct (registrationConfig_errors _ _ _ Hrc) as [path [=]].
  - split; [|by exists c1]. intros key [= ->]. by apply (Hr key).
Qed.

(** ** Fragments with new keys *)

Lemma merge_all_fresh fragments st c :
  Inv st -> collector st = Some c ->
  (forall k, NoDup (all_entries k fragments).*1) ->
  (forall k key, key ∈ (all_entries k fragments).*1 ->
                 dictionary k c !! key = None /\ inherited key = false) ->
  (merge_all fragments st).1 = Ok tt /\
  exists c',
    collector (merge_all fragments st).2 = Some c' /\
    forall k,
      dictionary k c' = list_to_map (all_entries k fragments) ∪ dictionary k c.
Proof.
  intros HI Hc Hnd Hfresh.
  unfold Inv in HI. rewrite Hc in HI.
  destruct HI as (_ & _ & (_ & (conns & Hn & _) & _) & _).
  destruct (disjoint_merges_union fragments _ c conns Hc Hn)
    as (Hok & c' & Hc' & Ha & Hcn & Hm).
  - apply (Hnd Adapter).
  - apply (Hfresh Adapter).
  - apply (Hnd Connection).
  - intros key Hin. destruct (Hfresh Connection key Hin) as [Hk Hi].
    cbn [dictionary] in Hk. rewrite Hn in Hk. done.
  - apply (Hnd Model).
  - apply (Hfresh Model).
  - split; [done|]. exists c'. split; [done|].
    intros []; cbn [dictionary]; [done| |done].
    by rewrite Hcn, Hn.
Qed.

(** X20. In a state reached by a run, a sequence of merges whose keys
    are, kind by kind, pairwise distinct, absent from the collector and
    no inherited names succeeds as a whole and leaves in each dictionary
    the union of the fragments' entries with what it held. *)
Theorem fresh_keys_all_stored e calls fragments c :
  collector (run e calls init) = Some c ->
  (forall k, NoDup (all_entries k fragments).*1) ->
  (forall k key, key ∈ (all_entries k fragments).*1 ->
                 dictionary k c !! key = None /\ inherited key = false) ->
  (merge_all fragments (run e calls init)).1 = Ok tt /\
  exists c',
    collector (merge_all fragments (run e calls init)).2 = Some c' /\
    forall k,
      dictionary k c' = list_to_map (all_entries k fragments) ∪ dictionary k c.
Proof.
  intros Hc Hnd Hfresh.
  apply merge_all_fresh; [apply Inv_reachable|done..].
Qed.




(** ** What initialization hands to Waterline *)


(** ** The scoped accessor *)

Lemma lookup_scoped (cs : gmap string jsval) (ids : list string) id :
  forall acc : gmap string jsval,
  foldl (fun (collections : gmap string jsval) id =>
           <[id := js_get cs id]> collections) acc ids !! id
  = if decide (id ∈ ids) then Some (js_get cs id) else acc !! id.
Proof.
  induction ids as [|x ids IH]; intros acc; cbn.
  - rewrite decide_False; [done|]. apply not_elem_of_nil.
  - rewrite IH. destruct (decide (id ∈ ids)) as [Hin|Hout].
    + rewrite decide_True; [done|]. by right.
    + destruct (decide (x = id)) as [->|Hne].
      * rewrite lookup_insert_eq, decide_True; [done|]. by left.
      * rewrite lookup_insert_ne by done. rewrite decide_False; [done|].
        intros [->|Hin]%elem_of_cons; done.
Qed.

(** X23. Once Waterline has collections, the scoped variant of the
    accessor returns a mapping with one key per identity in the record
    of the realm and no other key; under each key it holds what
    Waterline's collections give for that identity, [undefined] when
    there is no such collection.  The state is not changed.  The record
    is taken not to hold [__proto__], under which an assignment creates
    no key; no record that a run leaves holds it. *)
Theorem scoped_collections_by_record this all st w cs :
  waterline st = Some w -> Waterline.collections w = Some cs ->
  truthy all = false ->
  "__proto__" ∉ record this st ->
  exists m,
    collections this all st = (Ok m, st) /\
    forall id,
      m !! id
      = if decide (id ∈ record this st) then Some (js_get cs id) else None.
Proof.
  intros Hw Hcs Hall _. eexists. split.
  - rewrite (collections_initialized _ _ _ _ _ Hw Hcs), Hall. reflexivity.
  - intros id. rewrite lookup_scoped. by rewrite lookup_empty.
Qed.

(** ** Stopping after teardown was asked for *)


(** ** The realms' states *)

Lemma state_eq srv (plugins : gmap realm RealmState.t) :
  state srv plugins
  = (Ok (default RealmState.empty (plugins !! srv)),
     <[srv := default RealmState.empty (plugins !! srv)]> plugins).
Proof. reflexivity. Qed.

Lemma flat_insert_same srv s (plugins : gmap realm RealmState.t) w :
  s = default RealmState.empty (plugins !! srv) ->
  flat (<[srv := s]> plugins) w = flat plugins w.
Proof.
  intros ->. unfold flat. f_equal.
  - destruct (decide (srv = Root)) as [->|Hne].
    + rewrite lookup_insert_eq. by destruct (plugins !! Root).
    + by rewrite lookup_insert_ne.
  - destruct (decide (srv = Root)) as [->|Hne].
    + rewrite lookup_insert_eq. by destruct (plugins !! Root).
    + by rewrite lookup_insert_ne.
  - apply map_eq. intros r. rewrite !lookup_omap.
    destruct (decide (srv = r)) as [->|Hne].
    + rewrite lookup_insert_eq. by destruct (plugins !! r).
    + by rewrite lookup_insert_ne.
Qed.

(** X25. [internals.state] returns the state that a realm has and
    changes nothing; for a realm without one it installs the empty
    state, in that realm only.  A second call returns the same state and
    changes nothing, and what the plugin reads of the realms, [setup],
    [collector] and the records, is the same before and after a
    call. *)
Theorem state_gets_or_creates srv (plugins : gmap realm RealmState.t) w :
  (forall s, plugins !! srv = Some s -> state srv plugins = (Ok s, plugins)) /\
  (plugins !! srv = None ->
   state srv plugins
   = (Ok RealmState.empty, <[srv := RealmState.empty]> plugins)) /\
  state srv (state srv plugins).2 = state srv plugins /\
  (forall r, r <> srv -> (state srv plugins).2 !! r = plugins !! r) /\
  flat (state srv plugins).2 w = flat plugins w.
Proof.
  rewrite !state_eq. cbn [snd]. split_and!.
  - intros s Hs. rewrite Hs. cbn. by rewrite insert_id.
  - by intros ->.
  - rewrite lookup_insert_eq. cbn. by rewrite insert_insert_eq.
  - intros r Hne. by rewrite lookup_insert_ne.
  - by apply flat_insert_same.
Qed.

(** X26. The recording at the end of [internals.dogwater], made through
    the state that [internals.state] returns, never fails, and on the
    realms' states read together it is the update [track] of the
    realm's record. *)
Theorem track_models_is_track this modelIds
  (plugins : gmap realm RealmState.t) w :
  (track_models this modelIds plugins).1 = Ok tt /\
  flat (track_models this modelIds plugins).2 w
  = track this modelIds (flat plugins w).
Proof.
  split; [reflexivity|].
  unfold track_models. rewrite run_bind, state_eq. unfold modify. cbn [snd].
  rewrite insert_insert_eq.
  set (s := default RealmState.empty (plugins !! this)).
  unfold flat, track, set_realm_models. cbn. f_equal.
  - destruct (decide (this = Root)) as [->|Hne].
    + rewrite lookup_insert_eq. subst s. by destruct (plugins !! Root).
    + by rewrite lookup_insert_ne.
  - destruct (decide (this = Root)) as [->|Hne].
    + rewrite lookup_insert_eq. subst s. by destruct (plugins !! Root).
    + by rewrite lookup_insert_ne.
  - erewrite omap_insert_Some by reflexivity. f_equal.
    rewrite lookup_omap. subst s. by destruct (plugins !! this).
Qed.

(** ** The theorems at concrete runs *)


Lemma disjoint_merges_union_example :
  (merge_all two_fragments
     (register (plain_env "0.12.2") (Plugin "a") no_options init).2).1
    = Ok tt /\
  exists c',
    collector
      (merge_all two_fragments
         (register (plain_env "0.12.2") (Plugin "a") no_options init).2).2
      = Some c' /\
    Collector.adapters c'
      = list_to_map (all_adapters two_fragments)
          ∪ Collector.adapters Collector.empty /\
    Collector.connections c'
      = Some (list_to_map (all_connections two_fragments) ∪ ∅) /\
    Collector.models c'
      = list_to_map (all_models two_fragments)
          ∪ Collector.models Collector.empty.
Proof.
  assert (Hfresh : forall l : list string,
            Forall (fun key => inherited key = false) l ->
            forall key, key ∈ l ->
              (∅ : gmap string jsval) !! key = None /\ inherited key = false).
  { intros l Hl key Hin. split; [apply lookup_empty|].
    by apply (proj1 (Forall_forall _ _) Hl). }
  apply (disjoint_merges_union two_fragments
           (register (plain_env "0.12.2") (Plugin "a") no_options init).2
           Collector.empty ∅ eq_refl eq_refl).
  - apply (bool_decide_unpack _). vm_compute. exact I.
  - apply Hfresh. by repeat constructor.
  - apply (bool_decide_unpack _). vm_compute. exact I.
  - apply Hfresh. by repeat constructor.
  - apply (bool_decide_unpack _). vm_compute. exact I.
  - apply Hfresh. by repeat constructor.
Qed.



(** Two registrations that both ask for teardown, the second without
    defaults. *)
Lemma teardownOnStop_only_once_witness :
  Options.teardownOnStop (with_defaults [("migrate", JStr "safe")] (Some true))
    = Some true /\
  Options.teardownOnStop (with_defaults [] (Some true)) = Some true /\
  (forall key,
     (register (plain_env "0.12.2") (Plugin "a")
        (with_defaults [("migrate", JStr "safe")] (Some true))
        (run (plain_env "0.12.2") [] init)).1
     <> Throw (DefaultAlreadySet key)) /\
  ((register (plain_env "0.12.2") (Plugin "b")
      (with_defaults [] (Some true))
      (run (plain_env "0.12.2") [Dogwater (Plugin "c") (ConfigArray [user])]
         (register (plain_env "0.12.2") (Plugin "a")
            (with_defaults [("migrate", JStr "safe")] (Some true))
            (run (plain_env "0.12.2") [] init)).2)).1
     = Throw TeardownOnStopOnce \/
   exists key,
     key ∈ (default []
              (Options.defaults (with_defaults [] (Some true)))).*1 /\
     (register (plain_env "0.12.2") (Plugin "b")
        (with_defaults [] (Some true))
        (run (plain_env "0.12.2") [Dogwater (Plugin "c") (ConfigArray [user])]
           (register (plain_env "0.12.2") (Plugin "a")
              (with_defaults [("migrate", JStr "safe")] (Some true))
              (run (plain_env "0.12.2") [] init)).2)).1
       = Throw (DefaultAlreadySet key)).
Proof.
  assert (Hfirst : forall key,
    (register (plain_env "0.12.2") (Plugin "a")
       (with_defaults [("migrate", JStr "safe")] (Some true))
       (run (plain_env "0.12.2") [] init)).1
    <> Throw (DefaultAlreadySet key)).
  { intros key. vm_compute. discriminate. }
  split; [reflexivity|]. split; [reflexivity|]. split; [exact Hfirst|].
  exact (teardownOnStop_only_once (plain_env "0.12.2") []
           (Plugin "a") (with_defaults [("migrate", JStr "safe")] (Some true))
           [Dogwater (Plugin "c") (ConfigArray [user])]
           (Plugin "b") (with_defaults [] (Some true)) true true
           eq_refl eq_refl Hfirst).
Defined.

Lemma collections_before_initialization_witness :
  waterline (run (plain_env "0.12.2") one_registration init)
    = Some Waterline.new /\
  Waterline.collections Waterline.new = None /\
  collections (Plugin "a") (JBool true)
    (run (plain_env "0.12.2") one_registration init)
  = (Ok ∅, run (plain_env "0.12.2") one_registration init).
Proof.
  split; [reflexivity|]. split; [reflexivity|].
  exact (collections_before_initialization (Plugin "a") (JBool true)
           (run (plain_env "0.12.2") one_registration init) Waterline.new
           eq_refl eq_refl).
Defined.

Lemma semverSplit_three_parts_witness :
  dotless "0" = true /\ dotless "13" = true /\ dotless "0" = true /\
  semverSplit "0.13.0"
    = {| MAJOR := JStr "0"; MINOR := JStr "13"; PATCH := JStr "0" |} /\
  semverSplit "0.13.0.1"
    = {| MAJOR := JStr "0"; MINOR := JStr "13"; PATCH := JStr "0" |}.
Proof.
  split; [reflexivity|]. split; [reflexivity|]. split; [reflexivity|].
  exact (semverSplit_three_parts "0" "13" "0" "1" eq_refl eq_refl eq_refl).
Defined.

Lemma semverSplit_missing_parts_witness :
  dotless "1" = true /\ dotless "2" = true /\
  semverSplit "1"
    = {| MAJOR := JStr "1"; MINOR := JUndefined; PATCH := JUndefined |} /\
  semverSplit "1.2"
    = {| MAJOR := JStr "1"; MINOR := JStr "2"; PATCH := JUndefined |}.
Proof.
  split; [reflexivity|]. split; [reflexivity|].
  exact (semverSplit_missing_parts "1" "2" eq_refl eq_refl).
Defined.

Lemma registrationConfig_resolves_witness :
  registrationConfig disk_env module_options
    = Ok (Config.mk
            (Some [("disk", []);
                   ("memory", [("identity", JStr "sails-memory")])])
            (Some memory_db) (Some [user; session])) /\
  Some memory_db = Options.connections module_options /\
  (is_Some (require_models disk_env "/srv/models") /\
   Some [user; session] = require_models disk_env "/srv/models") /\
  Forall2 (resolved disk_env)
    [("disk", AdapterObject []); ("memory", AdapterModule "sails-memory")]
    [("disk", []); ("memory", [("identity", JStr "sails-memory")])].
Proof.
  split; [reflexivity|].
  exact (registrationConfig_resolves disk_env module_options _ eq_refl).
Defined.


Lemma module_name_same_as_exports_witness :
  require_models disk_env "/srv/models" = Some [user; session] /\
  register disk_env (Plugin "a")
    (Options.mk None None (Some (ModelsModule "/srv/models")) None None) init
  = register disk_env (Plugin "a")
      (Options.mk None None (Some (ModelsArray [user; session])) None None)
      init.
Proof.
  split; [reflexivity|].
  exact (module_name_same_as_exports disk_env (Plugin "a") None None None
           None "/srv/models" [user; session] init eq_refl).
Defined.

Lemma entries_never_removed_witness :
  collector (run (plain_env "0.12.2") one_registration init)
    = Some collector_with_user /\
  exists c',
    collector
      (run (plain_env "0.12.2")
         (one_registration
          ++ [Dogwater (Plugin "shop") (ConfigArray [product; user])]) init)
      = Some c' /\
    (forall k key def,
        dictionary k collector_with_user !! key = Some def ->
        dictionary k c' !! key = Some def) /\
    (forall key v,
        Collector.defaults collector_with_user !! key = Some v ->
        truthy v = true ->
        Collector.defaults c' !! key = Some v) /\
    (Collector.teardownOnStop collector_with_user <> JNull ->
     Collector.teardownOnStop c'
     = Collector.teardownOnStop collector_with_user).
Proof.
  split; [reflexivity|].
  exact (entries_never_removed (plain_env "0.12.2") one_registration
           [Dogwater (Plugin "shop") (ConfigArray [product; user])]
           collector_with_user eq_refl).
Defined.

Lemma connections_never_renamed_witness :
  collector (run (plain_env "0.13.0") one_connection init)
    = Some (Collector.set_connections
              (Some {["db" := JObj [("adapter", JStr "memory")]]})
              Collector.empty) /\
  Collector.datastores
    (Collector.set_connections
       (Some {["db" := JObj [("adapter", JStr "memory")]]}) Collector.empty)
    = None /\
  is_Some
    (Collector.connections
       (Collector.set_connections
          (Some {["db" := JObj [("adapter", JStr "memory")]]})
          Collector.empty)).
Proof.
  split; [reflexivity|].
  exact (connections_never_renamed (plain_env "0.13.0") one_connection _
           eq_refl).
Defined.

Lemma models_stored_under_identity_witness :
  collector (run (plain_env "0.12.2") one_registration init)
    = Some collector_with_user /\
  Collector.models collector_with_user !! "user" = Some (model_val user) /\
  Waterline.identity_of (model_val user) = Some "user".
Proof.
  split; [reflexivity|]. split; [reflexivity|].
  exact (models_stored_under_identity (plain_env "0.12.2") one_registration
           collector_with_user "user" (model_val user) eq_refl eq_refl).
Defined.

Lemma returned_merge_adds_exactly_witness :
  collector (run (plain_env "0.12.2") one_registration init)
    = Some collector_with_user /\
  (dogwater (Plugin "shop") (shop_config [session; product])
     (run (plain_env "0.12.2") one_registration init)).1 = Ok tt /\
  exists c',
    collector
      (dogwater (Plugin "shop") (shop_config [session; product])
         (run (plain_env "0.12.2") one_registration init)).2 = Some c' /\
    (forall k,
       NoDup (keys_of k (shop_config [session; product])) /\
       (forall key, key ∈ keys_of k (shop_config [session; product]) ->
                    dictionary k collector_with_user !! key = None) /\
       dictionary k c'
       = list_to_map (entries_of k (shop_config [session; product]))
           ∪ dictionary k collector_with_user) /\
    Collector.defaults c' = Collector.defaults collector_with_user /\
    Collector.teardownOnStop c'
    = Collector.teardownOnStop collector_with_user.
Proof.
  split; [reflexivity|]. split; [reflexivity|].
  exact (returned_merge_adds_exactly (plain_env "0.12.2") one_registration
           (Plugin "shop") (shop_config [session; product])
           collector_with_user eq_refl eq_refl).
Defined.

Lemma merge_records_for_caller_witness :
  setup (run (plain_env "0.12.2") one_registration init) = true /\
  record (Plugin "shop")
    (dogwater (Plugin "shop") (ConfigArray [session; product])
       (run (plain_env "0.12.2") one_registration init)).2
  = record (Plugin "shop") (run (plain_env "0.12.2") one_registration init)
    ++ match (dogwater (Plugin "shop") (ConfigArray [session; product])
                (run (plain_env "0.12.2") one_registration init)).1 with
       | Ok _ =>
           if decide (Plugin "shop" = Plugin "shop")
           then model_ids (ConfigArray [session; product]) else []
       | Throw _ => []
       end.
Proof.
  split; [reflexivity|].
  exact (merge_records_for_caller (plain_env "0.12.2") one_registration
           (Plugin "shop") (ConfigArray [session; product]) (Plugin "shop")
           eq_refl).
Defined.

Lemma refused_merge_keeps_what_it_stored_witness :
  collector (run (plain_env "0.12.2") one_registration init)
    = Some collector_with_user /\
  (dogwater (Plugin "shop") (shop_config [product; user])
     (run (plain_env "0.12.2") one_registration init)).1
    = Throw (AlreadyRegistered Model "user") /\
  exists c',
    collector
      (dogwater (Plugin "shop") (shop_config [product; user])
         (run (plain_env "0.12.2") one_registration init)).2 = Some c' /\
    (forall name def,
        (name, def) ∈ entries_of Adapter (shop_config [product; user]) ->
        dictionary Adapter c' !! name = Some def) /\
    (forall name def,
        (name, def) ∈ entries_of Connection (shop_config [product; user]) ->
        dictionary Connection c' !! name = Some def).
Proof.
  split; [reflexivity|]. split; [reflexivity|].
  exact (refused_merge_keeps_what_it_stored (plain_env "0.12.2")
           one_registration (Plugin "shop") (shop_config [product; user])
           collector_with_user Model "user" eq_refl eq_refl).
Defined.

Lemma repeated_identity_refused_witness :
  setup (run (plain_env "0.12.2") one_registration init) = true /\
  ~ NoDup (identity <$> [session; session]) /\
  exists id,
    id ∈ identity <$> [session; session] /\
    (dogwater (Plugin "shop") (ConfigArray [session; session])
       (run (plain_env "0.12.2") one_registration init)).1
      = Throw (AlreadyRegistered Model id).
Proof.
  assert (Hdup : ~ NoDup (identity <$> [session; session])).
  { intros [Hin _]%NoDup_cons. apply Hin. left. }
  split; [reflexivity|]. split; [exact Hdup|].
  exact (repeated_identity_refused (plain_env "0.12.2") one_registration
           (Plugin "shop") [session; session] eq_refl Hdup).
Defined.

Lemma truthy_default_set_twice_refused_witness :
  collector
    (run (plain_env "0.12.2")
       [Register (Plugin "a") (with_defaults [("migrate", JStr "safe")] None)]
       init)
    = Some collector_with_default /\
  Collector.defaults collector_with_default !! "migrate" = Some (JStr "safe") /\
  truthy (JStr "safe") = true /\
  "migrate"
    ∈ (default []
         (Options.defaults
            (with_defaults [("migrate", JStr "alter")] (Some false)))).*1 /\
  exists refused c',
    (register (plain_env "0.12.2") (Plugin "b")
       (with_defaults [("migrate", JStr "alter")] (Some false))
       (run (plain_env "0.12.2")
          [Register (Plugin "a")
             (with_defaults [("migrate", JStr "safe")] None)] init)).1
      = Throw (DefaultAlreadySet refused) /\
    refused
      ∈ (default []
           (Options.defaults
              (with_defaults [("migrate", JStr "alter")] (Some false)))).*1 /\
    collector
      (register (plain_env "0.12.2") (Plugin "b")
         (with_defaults [("migrate", JStr "alter")] (Some false))
         (run (plain_env "0.12.2")
            [Register (Plugin "a")
               (with_defaults [("migrate", JStr "safe")] None)] init)).2
      = Some c' /\
    Collector.defaults c' !! "migrate" = Some (JStr "safe") /\
    Collector.adapters c' = Collector.adapters collector_with_default /\
    Collector.connections c' = Collector.connections collector_with_default /\
    Collector.models c' = Collector.models collector_with_default /\
    Collector.teardownOnStop c'
      = Collector.teardownOnStop collector_with_default /\
    realm_models
      (register (plain_env "0.12.2") (Plugin "b")
         (with_defaults [("migrate", JStr "alter")] (Some false))
         (run (plain_env "0.12.2")
            [Register (Plugin "a")
               (with_defaults [("migrate", JStr "safe")] None)] init)).2
    = realm_models
        (run (plain_env "0.12.2")
           [Register (Plugin "a")
              (with_defaults [("migrate", JStr "safe")] None)] init).
Proof.
  assert (Hin : "migrate"
    ∈ (default []
         (Options.defaults
            (with_defaults [("migrate", JStr "alter")] (Some false)))).*1)
    by left.
  split; [reflexivity|]. split; [reflexivity|]. split; [reflexivity|].
  split; [exact Hin|].
  exact (truthy_default_set_twice_refused (plain_env "0.12.2")
           [Register (Plugin "a")
              (with_defaults [("migrate", JStr "safe")] None)]
           (Plugin "b")
           (with_defaults [("migrate", JStr "alter")] (Some false))
           collector_with_default "migrate" (JStr "safe")
           eq_refl eq_refl eq_refl Hin).
Defined.


Lemma first_teardownOnStop_accepted_witness :
  Forall (fun c => call_teardownOnStop c = None)
    [Register (Plugin "a") (with_models [user]);
     Dogwater (Plugin "b") (ConfigArray [session])] /\
  (register (plain_env "0.12.2") (Plugin "c") (with_defaults [] (Some false))
     (run (plain_env "0.12.2")
        [Register (Plugin "a") (with_models [user]);
         Dogwater (Plugin "b") (ConfigArray [session])] init)).1
  <> Throw TeardownOnStopOnce.
Proof.
  assert (Hnone : Forall (fun c => call_teardownOnStop c = None)
    [Register (Plugin "a") (with_models [user]);
     Dogwater (Plugin "b") (ConfigArray [session])])
    by (by repeat constructor).
  split; [exact Hnone|].
  exact (first_teardownOnStop_accepted (plain_env "0.12.2") _ (Plugin "c")
           (with_defaults [] (Some false)) Hnone).
Defined.

Lemma fresh_defaults_all_stored_witness :
  NoDup (default []
           (Options.defaults
              (with_defaults [("migrate", JStr "safe"); ("autoPK", JBool false)]
                 None))).*1 /\
  (forall key,
      key ∈ (default []
               (Options.defaults
                  (with_defaults
                     [("migrate", JStr "safe"); ("autoPK", JBool false)]
                     None))).*1 ->
      Collector.defaults
        (working_collector (run (plain_env "0.12.2") one_registration init))
        !! key = None /\
      inherited key = false) /\
  (forall key,
      (register (plain_env "0.12.2") (Plugin "b")
         (with_defaults [("migrate", JStr "safe"); ("autoPK", JBool false)]
            None)
         (run (plain_env "0.12.2") one_registration init)).1
      <> Throw (DefaultAlreadySet key)) /\
  exists c',
    collector
      (register (plain_env "0.12.2") (Plugin "b")
         (with_defaults [("migrate", JStr "safe"); ("autoPK", JBool false)]
            None)
         (run (plain_env "0.12.2") one_registration init)).2 = Some c' /\
    Collector.defaults c'
    = list_to_map
        (default []
           (Options.defaults
              (with_defaults
                 [("migrate", JStr "safe"); ("autoPK", JBool false)] None)))
        ∪ Collector.defaults
            (working_collector
               (run (plain_env "0.12.2") one_registration init)).
Proof.
  assert (Hnd : NoDup (default []
           (Options.defaults
              (with_defaults [("migrate", JStr "safe"); ("autoPK", JBool false)]
                 None))).*1).
  { apply (bool_decide_unpack _). vm_compute. exact I. }
  assert (Hfresh : forall key,
      key ∈ (default []
               (Options.defaults
                  (with_defaults
                     [("migrate", JStr "safe"); ("autoPK", JBool false)]
                     None))).*1 ->
      Collector.defaults
        (working_collector (run (plain_env "0.12.2") one_registration init))
        !! key = None /\
      inherited key = false).
  { intros key Hin. split; [done|].
    assert (Hall : Forall (fun key => inherited key = false)
                     ["migrate"; "autoPK"]) by (by repeat constructor).
    by apply (proj1 (Forall_forall _ _) Hall). }
  split; [exact Hnd|]. split; [exact Hfresh|].
  exact (fresh_defaults_all_stored (plain_env "0.12.2") one_registration
           (Plugin "b")
           (with_defaults [("migrate", JStr "safe"); ("autoPK", JBool false)]
              None) Hnd Hfresh).
Defined.

Lemma fresh_keys_all_stored_witness :
  collector (run (plain_env "0.12.2") [Register (Plugin "a") no_options] init)
    = Some Collector.empty /\
  (forall k, NoDup (all_entries k two_fragments).*1) /\
  (forall k key, key ∈ (all_entries k two_fragments).*1 ->
                 dictionary k Collector.empty !! key = None /\
                 inherited key = false) /\
  (merge_all two_fragments
     (run (plain_env "0.12.2") [Register (Plugin "a") no_options] init)).1
    = Ok tt /\
  exists c',
    collector
      (merge_all two_fragments
         (run (plain_env "0.12.2") [Register (Plugin "a") no_options] init)).2
      = Some c' /\
    forall k,
      dictionary k c'
      = list_to_map (all_entries k two_fragments)
          ∪ dictionary k Collector.empty.
Proof.
  assert (Hnd : forall k, NoDup (all_entries k two_fragments).*1).
  { intros []; apply (bool_decide_unpack _); vm_compute; exact I. }
  assert (Hfresh : forall k key,
            key ∈ (all_entries k two_fragments).*1 ->
            dictionary k Collector.empty !! key = None /\
            inherited key = false).
  { intros k key Hin. split; [by destruct k|].
    assert (Hall : Forall (fun key => inherited key = false)
                     (all_entries k two_fragments).*1)
      by (destruct k; by repeat constructor).
    by apply (proj1 (Forall_forall _ _) Hall). }
  split; [reflexivity|]. split; [exact Hnd|]. split; [exact Hfresh|].
  exact (fresh_keys_all_stored (plain_env "0.12.2")
           [Register (Plugin "a") no_options] two_fragments Collector.empty
           eq_refl Hnd Hfresh).
Defined.



Lemma scoped_collections_by_record_witness :
  waterline (initialize (run (plain_env "0.12.2") one_registration init)).2
    = Some waterline_with_user /\
  Waterline.collections waterline_with_user
    = Some {["user" := model_val user]} /\
  truthy JUndefined = false /\
  ("__proto__"
     ∉ record Root
         (initialize (run (plain_env "0.12.2") one_registration init)).2) /\
  exists m,
    collections Root JUndefined
      (initialize (run (plain_env "0.12.2") one_registration init)).2
    = (Ok m, (initialize (run (plain_env "0.12.2") one_registration init)).2)
    /\
    forall id,
      m !! id
      = if decide
             (id ∈ record Root
                     (initialize
                        (run (plain_env "0.12.2") one_registration init)).2)
        then Some (js_get {["user" := model_val user]} id) else None.
Proof.
  assert (Hnot : "__proto__"
    ∉ record Root
        (initialize (run (plain_env "0.12.2") one_registration init)).2).
  { apply (bool_decide_unpack _). vm_compute. exact I. }
  split; [reflexivity|]. split; [reflexivity|]. split; [reflexivity|].
  split; [exact Hnot|].
  exact (scoped_collections_by_record Root JUndefined
           (initialize (run (plain_env "0.12.2") one_registration init)).2
           waterline_with_user {["user" := model_val user]}
           eq_refl eq_refl eq_refl Hnot).
Defined.

